(** * firevault-js: the schema validator, its path codec and its stripper

    A shallow embedding of [src/lib/schema.ts] (class [Schema]): the private
    helpers [stripData], [nestData], [flattenData], the rule evaluators
    [validateType] ... [doTransform], and the recursive [validate].

    Conventions of the embedding.
    - A JavaScript value is a term of [value].  A plain object is the list
      of its own enumerable properties in the order [for ... in] and
      [Object.entries] yield them (creation order, for names that are not
      array indices); names are unique in a well-formed object.
    - Every plain object, a record or a schema, inherits the members of
      [Object.prototype] as the language defines them ([inherited_names]).
      A read [o[k]] finds an own property first and an inherited member
      next; the inherited members are built-in objects shared by the whole
      program and are not values of the model: a step that hands one to a
      rule or reads a property of one leaves the model ([Unmodelled]), and
      an assignment that creates a property on an inherited function (as
      [nestData] can make) changes no record.  A test
      [o[k] !== undefined] is true of an inherited name.  A write
      [o[k] = v] to a name that is not an own property adds an own
      property, except for [__proto__], whose inherited setter adds none
      and may replace the prototype: where the record is read again
      afterwards, the step leaves the model.
    - Numbers are the integers (lengths and bounds are compared as such);
      the length of a string is the number of its characters.
    - The module is strict-mode code (it is an ES module): writing a
      property on a primitive raises a [TypeError].  The message of a
      [TypeError] depends on the engine and is given in short.
    - A step that would write a property on an array, a date, a regular
      expression or a function, or read one from them or from a string,
      leaves the model: the call ends in [Unmodelled].
    - [validate] mutates its working record in place and returns it; here
      it returns the updated record, and a call that raises returns the
      exception alone.  Callbacks of a schema ([default], [validate],
      [transform]) are total functions that do not touch the record, and
      every invocation is logged in the trace of the call.
    - [await] on the recursive call is sequential: [validate] is modelled
      as a direct recursion on the schema. *)

From Stdlib Require Import String Ascii List ZArith Bool Lia DecimalString.
From Stdlib Require Import Sorted.
Import ListNotations.
Local Open Scope list_scope.

(** ** Values *)

#[warnings="-register-all"]
Inductive value : Type :=
| VUndefined
| VNull
| VBool (b : bool)
| VNumber (n : Z)
| VString (s : string)
| VArray (items : list value)
| VObject (props : list (string * value))
| VDate (ms : Z)
| VRegExp (source : string)
| VFunction (id : nat).

Definition obj : Type := list (string * value).

(** [typeof v] *)
Definition typeof (v : value) : string :=
  match v with
  | VUndefined => "undefined"
  | VNull => "object"
  | VBool _ => "boolean"
  | VNumber _ => "number"
  | VString _ => "string"
  | VArray _ | VObject _ | VDate _ | VRegExp _ => "object"
  | VFunction _ => "function"
  end.

(** [Array.isArray(v)] *)
Definition isArray (v : value) : bool :=
  match v with VArray _ => true | _ => false end.

(** What a call can end in: a value, a thrown exception, or a step that
    leaves the modelled fragment of JavaScript (a property written on an
    array, a date, a regular expression or a function; a built-in object
    obtained through an inherited name). *)
Inductive exn : Type :=
| Error (message : string)
| TypeError (message : string).

Inductive outcome (A : Type) : Type :=
| Ok (a : A)
| Throw (e : exn)
| Unmodelled.
Arguments Ok {A} a.
Arguments Throw {A} e.
Arguments Unmodelled {A}.

Definition obind {A B} (c : outcome A) (k : A -> outcome B) : outcome B :=
  match c with
  | Ok a => k a
  | Throw e => Throw e
  | Unmodelled => Unmodelled
  end.

Declare Scope outcome_scope.
Delimit Scope outcome_scope with outcome.
Notation "x <- c ;; k" := (obind c (fun x => k))
  (at level 61, c at next level, right associativity) : outcome_scope.

(** ** Properties of a plain object *)

Local Open Scope string_scope.

(** The property names of [Object.prototype]: every plain object answers to
    them, with a built-in function or, for [__proto__], with the prototype
    itself. *)
Definition inherited_names : list string :=
  ["constructor"; "__defineGetter__"; "__defineSetter__"; "hasOwnProperty";
   "__lookupGetter__"; "__lookupSetter__"; "isPrototypeOf";
   "propertyIsEnumerable"; "toString"; "valueOf"; "__proto__";
   "toLocaleString"].

Definition inherited (k : string) : bool :=
  existsb (String.eqb k) inherited_names.

(** The names a number or a boolean answers to, through [Number.prototype],
    [Boolean.prototype] and [Object.prototype]. *)
Definition primitive_member (k : string) : bool :=
  inherited k
  || existsb (String.eqb k) ["toExponential"; "toFixed"; "toPrecision"].

(** The one name whose assignment goes to an inherited setter. *)
Definition proto : string := "__proto__".

(** The names a strict-mode assignment cannot simply create or change on a
    built-in function: its read-only [length], [name] and [prototype], the
    [arguments] and [caller] whose setters throw, and [__proto__]. *)
Definition function_guarded (k : string) : bool :=
  existsb (String.eqb k)
    ["length"; "name"; "prototype"; "arguments"; "caller"; "__proto__"].

Local Close Scope string_scope.

Fixpoint obj_get (k : string) (o : obj) : option value :=
  match o with
  | [] => None
  | (k', v) :: o' => if String.eqb k k' then Some v else obj_get k o'
  end.

Definition own (k : string) (o : obj) : bool :=
  match obj_get k o with Some _ => true | None => false end.

(** The own property [k] of [o], [undefined] when there is none. *)
Definition obj_read (k : string) (o : obj) : value :=
  match obj_get k o with Some v => v | None => VUndefined end.

(** [o[k]]: the own property, else the inherited member, else [undefined].
    An inherited member is a shared built-in object, outside the model. *)
Definition obj_lookup (k : string) (o : obj) : outcome value :=
  match obj_get k o with
  | Some v => Ok v
  | None => if inherited k then Unmodelled else Ok VUndefined
  end.

(** The own properties of [o] after [o[k] = v]: an existing property keeps
    its place, a new one is added last; the name [__proto__], when it is
    not an own property, goes to the inherited setter and no property is
    added.  (The setter may replace the prototype of [o], which is not
    part of [obj]: see [settable].) *)
Fixpoint obj_set (k : string) (v : value) (o : obj) : obj :=
  match o with
  | [] => if String.eqb k proto then [] else [(k, v)]
  | (k', v') :: o' =>
      if String.eqb k k' then (k', v) :: o' else (k', v') :: obj_set k v o'
  end.

(** Whether [o[k] = v] is an ordinary write: it is not when it reaches the
    setter of [__proto__], which replaces the prototype of [o] and with it
    what the later reads of [o] inherit. *)
Definition settable (k : string) (o : obj) : bool :=
  own k o || negb (String.eqb k proto).

(** A property defined by an object literal, [{ ...o, k: v }]: always an
    own property. *)
Fixpoint obj_define (k : string) (v : value) (o : obj) : obj :=
  match o with
  | [] => [(k, v)]
  | (k', v') :: o' =>
      if String.eqb k k' then (k', v) :: o' else (k', v') :: obj_define k v o'
  end.

(** [delete o[k]] *)
Fixpoint obj_delete (k : string) (o : obj) : obj :=
  match o with
  | [] => []
  | (k', v') :: o' =>
      if String.eqb k k' then obj_delete k o' else (k', v') :: obj_delete k o'
  end.

(** [Object.assign(target, source)] *)
Definition obj_assign (target source : obj) : obj :=
  fold_left (fun r kv => obj_set (fst kv) (snd kv) r) source target.

(** [{ ...target, ...source }] *)
Definition obj_spread (target source : obj) : obj :=
  fold_left (fun r kv => obj_define (fst kv) (snd kv) r) source target.

Definition keys (o : obj) : list string := map fst o.

Definition wf_obj (o : obj) : Prop := NoDup (keys o).

(** ** Strings: [key.split(".")] and the template [`${prefix}${key}.`] *)

Definition dot : ascii := "."%char.

Fixpoint split (s : string) : list string :=
  match s with
  | EmptyString => [EmptyString]
  | String c rest =>
      if Ascii.eqb c dot then EmptyString :: split rest
      else match split rest with
           | [] => [String c EmptyString]
           | seg :: segs => String c seg :: segs
           end
  end.


Fixpoint dot_free (s : string) : bool :=
  match s with
  | EmptyString => true
  | String c rest => negb (Ascii.eqb c dot) && dot_free rest
  end.

(** ** Path codec: [nestData] *)

Definition string_of_nat (i : nat) : string :=
  NilZero.string_of_uint (Nat.to_uint i).

Fixpoint indexed {A} (i : nat) (l : list A) : list (string * A) :=
  match l with
  | [] => []
  | a :: l' => (string_of_nat i, a) :: indexed (S i) l'
  end.

Fixpoint chars (s : string) : list value :=
  match s with
  | EmptyString => []
  | String c rest => VString (String c EmptyString) :: chars rest
  end.

(** The pairs [(key, data[key])] that [for (const key in data)] visits. *)
Definition for_in (data : value) : list (string * value) :=
  match data with
  | VObject o => o
  | VArray l => indexed 0 l
  | VString s => indexed 0 (chars s)
  | _ => []
  end.

Local Open Scope outcome_scope.

(** The body of the outer loop of [nestData] for one key, already split:
    walk down [objRef], creating the missing levels, and assign the leaf.
    The result is the updated object at the level of [objRef].

    [objRef[keys[i]]] is a property read.  Where [objRef] has no own
    property of that name but inherits one, the test [=== undefined] fails,
    no level is created, and the loop goes on with the inherited built-in:
    when that is a function and the next name is the last, the final
    assignment creates or changes a property of the function, and [objRef]
    is left as it was; the other cases (a longer path, which reads the
    built-in; a guarded name; [__proto__], which yields the prototype
    itself) are left out.  A number or a boolean met on the way raises at
    the next read-and-create or at the final write, unless the next name
    is one it answers to. *)
Fixpoint nest_assign (path : list string) (v : value) (objRef : obj)
  : outcome obj :=
  match path with
  | [] => Ok objRef
  | [k] => if settable k objRef then Ok (obj_set k v objRef) else Unmodelled
  | k :: (next :: more) as rest =>
      match obj_get k objRef with
      | None =>
          if inherited k then
            match more with
            | [] =>
                if String.eqb k proto || function_guarded next
                then Unmodelled else Ok objRef
            | _ :: _ => Unmodelled
            end
          else
            sub <- nest_assign rest v [] ;;
            Ok (obj_set k (VObject sub) objRef)
      | Some VUndefined =>
          sub <- nest_assign rest v [] ;;
          Ok (obj_set k (VObject sub) objRef)
      | Some (VObject o) =>
          sub <- nest_assign rest v o ;;
          Ok (obj_set k (VObject sub) objRef)
      | Some VNull =>
          Throw (TypeError "Cannot read properties of null")
      | Some (VBool _) | Some (VNumber _) =>
          if primitive_member next then Unmodelled
          else Throw (TypeError "Cannot create property on a primitive")
      | Some (VString _) | Some (VArray _) | Some (VDate _)
      | Some (VRegExp _) | Some (VFunction _) => Unmodelled
      end
  end.

Fixpoint nest_entries (entries : list (string * value)) (nestedObj : obj)
  : outcome obj :=
  match entries with
  | [] => Ok nestedObj
  | (key, v) :: entries' =>
      nestedObj' <- nest_assign (split key) v nestedObj ;;
      nest_entries entries' nestedObj'
  end.

Definition nestData (data : value) : outcome obj :=
  nest_entries (for_in data) [].

(** ** Path codec: [flattenData] *)

(** The test of [flattenData]: an object that is neither [null], a [Date],
    an array nor a [RegExp]. *)
Definition is_plain (v : value) : bool :=
  String.eqb (typeof v) "object"
  && match v with
     | VUndefined | VNull | VDate _ | VArray _ | VRegExp _ => false
     | _ => true
     end.

(** [flattenData(data, prefix)].  Its writes are [result[key] = value] and
    [Object.assign(result, ...)]; it reads no property of [result].  The
    one write that can reach the setter of [__proto__] is that of an own
    property [__proto__] of [data] with the empty prefix, which no call
    made by [validate] has: its [data] is the record [nestData] builds. *)
Fixpoint flatten_value (data : value) (prefix : string) {struct data} : obj :=
  match data with
  | VObject entries =>
      (fix each (es : list (string * value)) (result : obj) {struct es} : obj :=
         match es with
         | [] => result
         | (key, v) :: es' =>
             each es'
               (if is_plain v
                then obj_assign result
                       (flatten_value v (prefix ++ key ++ ".")%string)
                else obj_set (prefix ++ key)%string v result)
         end) entries []
  | _ => []
  end.

Definition flattenData (data : obj) (prefix : string) : obj :=
  flatten_value (VObject data) prefix.

(** ** Schemas *)

(** An attribute given either as a scalar or as a pair [[scalar, message]];
    [Malformed] stands for any other runtime value, which the evaluators
    reject as a schema misconfiguration. *)
Inductive rule (A : Type) : Type :=
| Plain (a : A)
| WithMessage (a : A) (msg : string)
| Malformed.
Arguments Plain {A} a.
Arguments WithMessage {A} a msg.
Arguments Malformed {A}.

Inductive callback (A : Type) : Type :=
| Fn (f : A)
| NotAFunction.
Arguments Fn {A} f.
Arguments NotAFunction {A}.

#[warnings="-register-all"]
Inductive FieldDefinition : Type := mkField {
  type : option string;
  required : option (rule bool);
  maxLength : option (rule Z);
  minLength : option (rule Z);
  validateFn : option (rule (value -> bool));
  transformFn : option (callback (value -> value));
  defaultFn : option (callback (unit -> value));
  arrayOf : option string;
  nestedSchema : option (list (string * FieldDefinition))
}.

Definition SchemaDefiniton : Type := list (string * FieldDefinition).

Fixpoint schema_get (key : string) (schema : SchemaDefiniton)
  : option FieldDefinition :=
  match schema with
  | [] => None
  | (k, fd) :: schema' =>
      if String.eqb key k then Some fd else schema_get key schema'
  end.

(** [schema[key] !== undefined]: true of a declared field, and of a name
    the schema object inherits from [Object.prototype]. *)
Definition schema_has (key : string) (schema : SchemaDefiniton) : bool :=
  match schema_get key schema with Some _ => true | None => inherited key end.

Record ValidationOptions : Type := mkOptions {
  skipStrip : bool;
  skipRequired : bool;
  skipDefault : bool;
  allowDotNotation : bool
}.

(** [options && options.flag] for the optional [options] argument. *)
Definition flag (f : ValidationOptions -> bool)
  (options : option ValidationOptions) : bool :=
  match options with
  | Some o => f o
  | None => false
  end.

(** Modelled from the spec: the module [./schema-types] is not among the
    sources; the spec and the README give the supported kinds as string,
    number, boolean, object and array. *)
Definition SchemaTypes : list string :=
  ["string"; "number"; "boolean"; "object"; "array"]%string.

Definition includes (l : list string) (t : option string) : bool :=
  match t with
  | Some s => existsb (String.eqb s) l
  | None => false
  end.

(** ** Stripper: [stripData] *)

Fixpoint strip_keys (ks : list string) (schema : SchemaDefiniton) (data : obj)
  : obj :=
  match ks with
  | [] => data
  | key :: ks' =>
      strip_keys ks' schema
        (if schema_has key schema then obj_delete key data else data)
  end.

Definition stripData (data : value) (schema : SchemaDefiniton) : outcome value :=
  match data with
  | VObject o => Ok (VObject (strip_keys (keys o) schema o))
  | VArray l =>
      if existsb (fun key => schema_has key schema) (map fst (indexed 0 l))
      then Unmodelled else Ok data
  | VString s =>
      if existsb (fun key => schema_has key schema)
           (map fst (indexed 0 (chars s)))
      then Throw (TypeError "Cannot delete property of a string")
      else Ok data
  | _ => Ok data
  end.

(** ** Calls with a trace of the callbacks they invoke *)

Inductive event : Type :=
| CallDefault (key : string)
| CallValidate (key : string) (arg : value)
| CallTransform (key : string) (arg : value).

Definition M (A : Type) : Type := (list event * outcome A)%type.

Definition ret {A} (a : A) : M A := ([], Ok a).
Definition throw {A} (e : exn) : M A := ([], Throw e).
Definition lift {A} (c : outcome A) : M A := ([], c).
Definition emit (e : event) : M unit := ([e], Ok tt).

Definition bind {A B} (c : M A) (k : A -> M B) : M B :=
  match c with
  | (t, Ok a) => let (t', r) := k a in (t ++ t', r)
  | (t, Throw e) => (t, Throw e)
  | (t, Unmodelled) => (t, Unmodelled)
  end.

Declare Scope trace_scope.
Delimit Scope trace_scope with M.
Notation "x <- c ;; k" := (bind c (fun x => k))
  (at level 61, c at next level, right associativity) : trace_scope.
Notation "c ;; k" := (bind c (fun _ => k))
  (at level 61, right associativity) : trace_scope.

Definition trace {A} (c : M A) : list event := fst c.
Definition result {A} (c : M A) : outcome A := snd c.

(** ** Field rule evaluators *)

Local Open Scope string_scope.

Definition dquote : string := String (ascii_of_nat 34) EmptyString.

(** [`${n}`] for an integer [n]. *)
Definition string_of_Z (n : Z) : string := NilZero.string_of_int (Z.to_int n).

(** [error || fallback]: the empty message is falsy. *)
Definition or_default (error fallback : string) : string :=
  if String.eqb error EmptyString then fallback else error.

(** The scalar ([rule[0]] or the rule itself) and the message ([rule[1]] or
    the empty string) of a well-formed rule. *)
Definition rule_message {A} (r : rule A) : string :=
  match r with
  | WithMessage _ msg => msg
  | _ => EmptyString
  end.

Definition validateType (v : value) (type : option string) (key : string)
  : outcome unit :=
  if negb (includes SchemaTypes type) then
    Throw (Error ("Invalid type for " ++ key))
  else
    match type with
    | None => Throw (Error ("A type for " ++ key ++ " must be specified"))
    | Some t =>
        match v with
        | VUndefined | VNull => Ok tt
        | _ =>
            if String.eqb t "array" then
              if negb (isArray v) then
                Throw (Error (key ++ " must be of type " ++ t
                              ++ ", but got " ++ typeof v))
              else Ok tt
            else if negb (String.eqb (typeof v) t) then
              Throw (Error (key ++ " must be of type " ++ t
                            ++ ", but got " ++ typeof v))
            else Ok tt
        end
    end.

Definition is_nullish (v : value) : bool :=
  match v with VUndefined | VNull => true | _ => false end.

Definition validateRequired (v : value) (required : option (rule bool))
  (key : string) : outcome unit :=
  match required with
  | None => Ok tt
  | Some Malformed =>
      Throw (Error (dquote ++ "required" ++ dquote ++ " property for " ++ key
        ++ " must be a boolean, or an array containing a boolean as its first element"))
  | Some (Plain isRequired as r) | Some (WithMessage isRequired _ as r) =>
      if negb isRequired || negb (is_nullish v) then Ok tt
      else Throw (Error (or_default (rule_message r) (key ++ " is required")))
  end.

(** [Object.keys(v).length] for a value whose [typeof] is ["object"]; it
    raises on [null]. *)
Definition own_keys_length (v : value) : outcome Z :=
  match v with
  | VNull => Throw (TypeError "Cannot convert undefined or null to object")
  | VObject o => Ok (Z.of_nat (List.length o))
  | VArray l => Ok (Z.of_nat (List.length l))
  | _ => Ok 0%Z
  end.

Definition validateMinLength (v : value) (minLength : option (rule Z))
  (key : string) : outcome unit :=
  match minLength with
  | None => Ok tt
  | Some Malformed =>
      Throw (Error (dquote ++ "minlength" ++ dquote ++ " property for " ++ key
        ++ " must be a number, or an array containing a number as its first element"))
  | Some (Plain length as r) | Some (WithMessage length _ as r) =>
      let error := rule_message r in
      match v with
      | VString s =>
          if (Z.of_nat (String.length s) <? length)%Z then
            Throw (Error (or_default error (key ++ " must be at least "
                     ++ string_of_Z length ++ " characters long")))
          else Ok tt
      | _ =>
          if match v with
             | VArray l => (Z.of_nat (List.length l) <? length)%Z
             | _ => false
             end
          then Throw (Error (or_default error (key ++ " must contain at least "
                        ++ string_of_Z length ++ " elements")))
          else if String.eqb (typeof v) "object" then
            (n <- own_keys_length v ;;
             if (n <? length)%Z then
               Throw (Error (or_default error (key ++ " must contain at least "
                        ++ string_of_Z length ++ " properties")))
             else Ok tt)%outcome
          else Ok tt
      end
  end.

Definition validateMaxLength (v : value) (maxLength : option (rule Z))
  (key : string) : outcome unit :=
  match maxLength with
  | None => Ok tt
  | Some Malformed =>
      Throw (Error (dquote ++ "maxlength" ++ dquote ++ " property for " ++ key
        ++ " must be a number, or an array containing a number as its first element"))
  | Some (Plain length as r) | Some (WithMessage length _ as r) =>
      let error := rule_message r in
      match v with
      | VString s =>
          if (Z.of_nat (String.length s) >? length)%Z then
            Throw (Error (or_default error (key ++ " must be at most "
                     ++ string_of_Z length ++ " characters long")))
          else Ok tt
      | _ =>
          if match v with
             | VArray l => (Z.of_nat (List.length l) >? length)%Z
             | _ => false
             end
          then Throw (Error (or_default error (key ++ " must contain at most "
                        ++ string_of_Z length ++ " elements")))
          else if String.eqb (typeof v) "object" then
            (n <- own_keys_length v ;;
             if (n >? length)%Z then
               Throw (Error (or_default error (key ++ " must contain at most "
                        ++ string_of_Z length ++ " properties")))
             else Ok tt)%outcome
          else Ok tt
      end
  end.

Definition validateCustom (v : value) (validate : option (rule (value -> bool)))
  (key : string) : M unit :=
  match v, validate with
  | VUndefined, _ | _, None => ret tt
  | _, Some Malformed =>
      throw (Error (dquote ++ "validate" ++ dquote ++ " property for " ++ key
        ++ " must be a function or an array containing a function as its first element"))
  | _, Some (Plain customValidate as r)
  | _, Some (WithMessage customValidate _ as r) =>
      (emit (CallValidate key v) ;;
       if customValidate v then ret tt
       else throw (Error (or_default (rule_message r)
                            (key ++ " failed custom validation"))))%M
  end.

Definition validateArrayTypes (v : value) (type : option string) (key : string)
  : outcome unit :=
  match v, type with
  | VArray items, Some t =>
      if forallb (fun i => String.eqb (typeof i) t) items then Ok tt
      else Throw (Error ("All elements in " ++ key ++ " must be of type " ++ t))
  | _, _ => Ok tt
  end.

Definition setDefault (defaultFn : callback (unit -> value)) (key : string)
  : M value :=
  match defaultFn with
  | NotAFunction =>
      throw (Error (dquote ++ "default" ++ dquote ++ " property for " ++ key
                    ++ " must be a function"))
  | Fn f => (emit (CallDefault key) ;; ret (f tt))%M
  end.

Definition doTransform (v : value) (transformFn : callback (value -> value))
  (key : string) : M value :=
  match transformFn with
  | NotAFunction =>
      throw (Error (dquote ++ "transform" ++ dquote ++ " property for " ++ key
                    ++ " must be a function"))
  | Fn f => (emit (CallTransform key v) ;; ret (f v))%M
  end.

Local Close Scope string_scope.

(** ** The recursive validator *)

(** [dataToCheck[key]] *)
Definition prop_read (dataToCheck : value) (key : string) : outcome value :=
  match dataToCheck with
  | VUndefined => Throw (TypeError "Cannot read properties of undefined")
  | VNull => Throw (TypeError "Cannot read properties of null")
  | VObject o => obj_lookup key o
  | VBool _ | VNumber _ =>
      if primitive_member key then Unmodelled else Ok VUndefined
  | _ => Unmodelled
  end.

(** [dataToCheck[key] = v]; the result is [dataToCheck] after the write. *)
Definition prop_write (dataToCheck : value) (key : string) (v : value)
  : outcome value :=
  match dataToCheck with
  | VUndefined => Throw (TypeError "Cannot set properties of undefined")
  | VNull => Throw (TypeError "Cannot set properties of null")
  | VObject o =>
      if settable key o then Ok (VObject (obj_set key v o)) else Unmodelled
  | VBool _ | VNumber _ =>
      if String.eqb key proto then Unmodelled
      else Throw (TypeError "Cannot create property on a primitive")
  | _ => Unmodelled
  end.

(** [this.flattenData(dataToCheck)]: [Object.entries(data)] raises on
    [undefined] and [null], and yields the own enumerable properties of any
    other value. *)
Definition flatten_top (data : value) : outcome value :=
  match data with
  | VUndefined | VNull =>
      Throw (TypeError "Cannot convert undefined or null to object")
  | _ => Ok (VObject (flattenData (for_in data) EmptyString))
  end.

(** The first two statements of [validate]: the working record
    [dataToCheck], nested when dot notation is allowed, then stripped
    unless stripping is skipped. *)
Definition enter (data : value) (schema : SchemaDefiniton)
  (options : option ValidationOptions) : outcome value :=
  (dataToCheck <- (if flag allowDotNotation options
                   then n <- nestData data ;; Ok (VObject n)
                   else Ok data) ;;
   if negb (flag skipStrip options)
   then stripData dataToCheck schema
   else Ok dataToCheck)%outcome.

(** The last statement of [validate]: [dataToReturn]. *)
Definition leave (dataToCheck : value) (options : option ValidationOptions)
  : outcome value :=
  if flag allowDotNotation options
  then flatten_top dataToCheck
  else Ok dataToCheck.

Local Open Scope trace_scope.

Section Walk.

(** The body of the loop [for (const key in schema)], for one key. *)
Variable rules : string -> FieldDefinition -> value -> M value.

Fixpoint walk (schema : SchemaDefiniton) (dataToCheck : value) : M value :=
  match schema with
  | [] => ret dataToCheck
  | (key, fd) :: schema' =>
      dataToCheck' <- rules key fd dataToCheck ;;
      walk schema' dataToCheck'
  end.

Definition validate_with (data : value) (schema : SchemaDefiniton)
  (options : option ValidationOptions) : M value :=
  dataToCheck <- lift (enter data schema options) ;;
  dataToCheck <- walk schema dataToCheck ;;
  lift (leave dataToCheck options).

End Walk.

(** The checks between the default and the transform, in source order. *)
Definition checks (options : option ValidationOptions) (key : string)
  (fd : FieldDefinition) (v : value) : M unit :=
  lift (if negb (flag skipRequired options)
        then validateRequired v (required fd) key else Ok tt) ;;
  lift (validateType v (type fd) key) ;;
  lift (validateMaxLength v (maxLength fd) key) ;;
  lift (validateMinLength v (minLength fd) key) ;;
  validateCustom v (validateFn fd) key ;;
  lift (validateArrayTypes v (arrayOf fd) key).

(** [value = dataToCheck[key] = e]: both the local and the property. *)
Definition assign (dataToCheck : value) (key : string) (v : value)
  : M (value * value) :=
  d <- lift (prop_write dataToCheck key v) ;; ret (v, d).

Definition apply_default (options : option ValidationOptions) (key : string)
  (fd : FieldDefinition) (v dataToCheck : value) : M (value * value) :=
  if negb (flag skipDefault options) then
    match v, defaultFn fd with
    | VUndefined, Some f =>
        d <- setDefault f key ;; assign dataToCheck key d
    | _, _ => ret (v, dataToCheck)
    end
  else ret (v, dataToCheck).

Definition apply_transform (key : string) (fd : FieldDefinition)
  (v dataToCheck : value) : M (value * value) :=
  match v, transformFn fd with
  | VUndefined, _ | _, None => ret (v, dataToCheck)
  | _, Some f => t <- doTransform v f key ;; assign dataToCheck key t
  end.

(** The loop body up to the transform: the pair of the local [value] and
    the working record. *)
Definition field_rules (options : option ValidationOptions) (key : string)
  (fd : FieldDefinition) (dataToCheck : value) : M (value * value) :=
  v <- lift (prop_read dataToCheck key) ;;
  vd <- apply_default options key fd v dataToCheck ;;
  checks options key fd (fst vd) ;;
  apply_transform key fd (fst vd) (snd vd).

Fixpoint rules (options : option ValidationOptions) (key : string)
  (fd : FieldDefinition) (dataToCheck : value) {struct fd} : M value :=
  vd <- field_rules options key fd dataToCheck ;;
  match nestedSchema fd with
  | None => ret (snd vd)
  | Some nested =>
      r <- validate_with (rules options) (fst vd) nested options ;;
      lift (prop_write (snd vd) key r)
  end.

(** [validate(data, schema, options)], with [schema] already resolved
    ([schema ?? this.definition]). *)
Definition validate (data : value) (schema : SchemaDefiniton)
  (options : option ValidationOptions) : M value :=
  validate_with (rules options) data schema options.

(** [new Schema(definition).validate(data, schema, options)] *)
Definition Schema_validate (definition : SchemaDefiniton) (data : value)
  (schema : option SchemaDefiniton) (options : option ValidationOptions)
  : M value :=
  validate data (match schema with Some s => s | None => definition end)
    options.

Local Close Scope trace_scope.

(** * The model, the formatter and the query builder *)

(** ** [Model.validate] and the validation step of [Model.updateById] *)

(** The options object of [Model.validate], each flag present or not. *)
Record ModelOptions : Type := mkModelOptions {
  optSkipStrip : option bool;
  optSkipRequired : option bool;
  optSkipDefault : option bool;
  optAllowDotNotation : option bool
}.

(** [(options?.flag === undefined) ? fallback : options?.flag] *)
Definition or_else (f : ModelOptions -> option bool)
  (options : option ModelOptions) (fallback : bool) : bool :=
  match options with
  | Some o => match f o with Some b => b | None => fallback end
  | None => fallback
  end.

Definition Model_validate (schema : SchemaDefiniton) (data : value)
  (options : option ModelOptions) : M value :=
  Schema_validate schema data None
    (Some (mkOptions (or_else optSkipStrip options false)
                     (or_else optSkipRequired options true)
                     (or_else optSkipDefault options true)
                     (or_else optAllowDotNotation options true))).

(** The options of [Model.updateById]: [skipValidation] and [skipStrip]. *)
Record ValidatingOptions : Type := mkValidatingOptions {
  skipValidation : bool;
  updSkipStrip : option bool
}.

(** The first statement of [Model.updateById]: the data handed to the
    [beforeSave] hook and to the store. *)
Definition updateById_data (schema : SchemaDefiniton) (data : value)
  (options : option ValidatingOptions) : M value :=
  if negb (match options with Some o => skipValidation o | None => false end)
  then
    Schema_validate schema data None
      (Some (mkOptions
               (match options with
                | Some o => match updSkipStrip o with
                            | Some b => b
                            | None => false
                            end
                | None => false
                end)
               true true true))
  else ret data.

(** ** [format] *)

(** A document snapshot: whether the document exists, its id, and its
    fields ([doc.data()]). *)
Record DocumentSnapshot : Type := mkSnapshot {
  doc_exists : bool;
  doc_id : string;
  doc_data : obj
}.

(** [{ id: doc.id, ...doc.data() }], or [null] for a missing document. *)
Definition format (doc : DocumentSnapshot) : value :=
  if negb (doc_exists doc) then VNull
  else VObject (obj_spread [("id"%string, VString (doc_id doc))] (doc_data doc)).

(** ** [Query] *)

Inductive Operator : Type :=
| OpEq | OpNe | OpLt | OpLe | OpGt | OpGe
| OpArrayContains | OpIn | OpArrayContainsAny | OpNotIn.

Record Condition : Type := mkCondition {
  field : string;
  operator : Operator;
  cvalue : value
}.

Inductive Direction : Type := Asc | Desc.

Record OrderBy : Type := mkOrderBy {
  ofield : string;
  direction : Direction
}.

Record Query : Type := mkQuery {
  collection : string;
  conditions : list Condition;
  orderField : option OrderBy;
  limitTo : option Z;
  limitFrom : option Z;
  startItem : option DocumentSnapshot;
  endItem : option DocumentSnapshot;
  offsetTo : option Z
}.

(** [new Query(collection)] *)
Definition newQuery (c : string) : Query :=
  mkQuery c [] None None None None None None.

(** The builder methods: each updates the receiver and returns it. *)
Definition where_ (f : string) (op : Operator) (v : value) (q : Query)
  : Query :=
  mkQuery (collection q) (conditions q ++ [mkCondition f op v])
    (orderField q) (limitTo q) (limitFrom q) (startItem q) (endItem q)
    (offsetTo q).

Definition orderBy (f : string) (d : Direction) (q : Query) : Query :=
  mkQuery (collection q) (conditions q) (Some (mkOrderBy f d))
    (limitTo q) (limitFrom q) (startItem q) (endItem q) (offsetTo q).

Definition limit (n : Z) (q : Query) : Query :=
  mkQuery (collection q) (conditions q) (orderField q) (Some n)
    (limitFrom q) (startItem q) (endItem q) (offsetTo q).

Definition limitToLast (n : Z) (q : Query) : Query :=
  mkQuery (collection q) (conditions q) (orderField q) (limitTo q)
    (Some n) (startItem q) (endItem q) (offsetTo q).

Definition startAfter (d : DocumentSnapshot) (q : Query) : Query :=
  mkQuery (collection q) (conditions q) (orderField q) (limitTo q)
    (limitFrom q) (Some d) (endItem q) (offsetTo q).

Definition endBefore (d : DocumentSnapshot) (q : Query) : Query :=
  mkQuery (collection q) (conditions q) (orderField q) (limitTo q)
    (limitFrom q) (startItem q) (Some d) (offsetTo q).

Definition offset (n : Z) (q : Query) : Query :=
  mkQuery (collection q) (conditions q) (orderField q) (limitTo q)
    (limitFrom q) (startItem q) (endItem q) (Some n).

(** The Firestore query that [get] and [count] build: the collection and
    the calls made on it, first to last. *)
Inductive FirestoreCall : Type :=
| QWhere (c : Condition)
| QOrderBy (o : OrderBy)
| QLimit (n : Z)
| QLimitToLast (n : Z)
| QStartAfter (d : DocumentSnapshot)
| QEndBefore (d : DocumentSnapshot)
| QOffset (n : Z)
| QCount.

Definition FirestoreQuery : Type := (string * list FirestoreCall)%type.

Definition call (c : FirestoreCall) (fq : FirestoreQuery) : FirestoreQuery :=
  (fst fq, snd fq ++ [c]).

(** [if (x !== undefined) firestoreQuery = firestoreQuery.m(x)] *)
Definition call_if {A} (x : option A) (m : A -> FirestoreCall) (fq : FirestoreQuery)
  : FirestoreQuery :=
  match x with
  | Some a => call (m a) fq
  | None => fq
  end.

(** The query on which [get] calls [get()]. *)
Definition get_query (q : Query) : FirestoreQuery :=
  let fq := (collection q, []) in
  let fq := fold_left (fun fq c => call (QWhere c) fq) (conditions q) fq in
  let fq := call_if (orderField q) QOrderBy fq in
  let fq := call_if (limitTo q) QLimit fq in
  let fq := call_if (limitFrom q) QLimitToLast fq in
  let fq := call_if (startItem q) QStartAfter fq in
  let fq := call_if (endItem q) QEndBefore fq in
  call_if (offsetTo q) QOffset fq.

(** The query on which [count] calls [count().get()]. *)
Definition count_query (q : Query) : FirestoreQuery :=
  let fq := (collection q, []) in
  let fq := fold_left (fun fq c => call (QWhere c) fq) (conditions q) fq in
  let fq := call_if (orderField q) QOrderBy fq in
  let fq := call_if (startItem q) QStartAfter fq in
  let fq := call_if (endItem q) QEndBefore fq in
  let fq := call_if (offsetTo q) QOffset fq in
  call QCount fq.

(** [data.docs.map(doc => format(doc))] *)
Definition format_docs (docs : list DocumentSnapshot) : list value :=
  map format docs.

(** * Vocabulary of the statements *)

(** ** The walk over a schema *)

(** The first failure of a call, in the order the source evaluates: the
    fields before it in the schema are processed without error, and then
    either a rule of the field raises, or the field's nested schema has a
    first failure of its own on the field's value. *)
Inductive first_failure (options : option ValidationOptions)
  : SchemaDefiniton -> value -> list event -> exn -> Prop :=
| fails_here schema1 key fd schema2 data d0 t1 d1 t2 e :
    enter data (schema1 ++ (key, fd) :: schema2) options = Ok d0 ->
    walk (rules options) schema1 d0 = (t1, Ok d1) ->
    field_rules options key fd d1 = (t2, Throw e) ->
    first_failure options (schema1 ++ (key, fd) :: schema2) data (t1 ++ t2) e
| fails_below schema1 key fd schema2 data d0 t1 d1 t2 v d2 nested t3 e :
    enter data (schema1 ++ (key, fd) :: schema2) options = Ok d0 ->
    walk (rules options) schema1 d0 = (t1, Ok d1) ->
    field_rules options key fd d1 = (t2, Ok (v, d2)) ->
    nestedSchema fd = Some nested ->
    first_failure options nested v t3 e ->
    first_failure options (schema1 ++ (key, fd) :: schema2) data
      (t1 ++ t2 ++ t3) e.

(** A schema with a field, at any depth, whose [type] is missing or is not
    one of [SchemaTypes]. *)
Inductive unrecognised_type : SchemaDefiniton -> Prop :=
| unrecognised_here schema key fd :
    In (key, fd) schema ->
    includes SchemaTypes (type fd) = false ->
    unrecognised_type schema
| unrecognised_below schema key fd nested :
    In (key, fd) schema ->
    nestedSchema fd = Some nested ->
    unrecognised_type nested ->
    unrecognised_type schema.

(** Two records that agree on every property but, possibly, [key]. *)
Definition same_but (key : string) (d d' : value) : Prop :=
  match d, d' with
  | VObject o, VObject o' =>
      forall k, k <> key -> obj_get k o' = obj_get k o
  | _, _ => d = d'
  end.

(** The working record after a step holds every property name it held
    before. *)
Definition keeps_keys (key : string) (d d' : value) : Prop :=
  match d, d' with
  | VObject o, VObject o' => incl (keys o) (keys o')
  | _, _ => d = d'
  end.

Definition reading_undefined : exn :=
  TypeError "Cannot read properties of undefined".

(** ** The rules of a field *)

(** The size a length rule compares with its bound: the number of
    characters of a string, of elements of an array, of own enumerable
    properties of any other non-null value whose [typeof] is ["object"] (a
    plain object, and also a [Date] or a [RegExp], which have none);
    [None] for the values the rule does not look at.  ([null] is left
    aside: see [own_keys_length].) *)
Definition measured (v : value) : option Z :=
  match v with
  | VString s => Some (Z.of_nat (String.length s))
  | VArray l => Some (Z.of_nat (List.length l))
  | VObject o => Some (Z.of_nat (List.length o))
  | VDate _ | VRegExp _ => Some 0%Z
  | _ => None
  end.

Definition scalar {A} (r : rule A) : option A :=
  match r with
  | Plain a | WithMessage a _ => Some a
  | Malformed => None
  end.

Definition raises_error (c : outcome unit) : Prop :=
  exists message, c = Throw (Error message).

(** The rules of a field, named as the specification names them, and what
    each does to the pair of the field's value and the working record. *)
Inductive rule_name : Type :=
| Default | Required | Type_ | MaxLength | MinLength | Custom
| ArrayElementType | Transform | NestedRecursion.

Definition rule_order : list rule_name :=
  [Default; Required; Type_; MaxLength; MinLength; Custom;
   ArrayElementType; Transform; NestedRecursion].

Definition check_only (c : M unit) (st : value * value) : M (value * value) :=
  bind c (fun _ => ret st).

Definition run_rule (options : option ValidationOptions) (key : string)
  (fd : FieldDefinition) (r : rule_name) (st : value * value)
  : M (value * value) :=
  match r with
  | Default => apply_default options key fd (fst st) (snd st)
  | Required =>
      check_only (lift (if negb (flag skipRequired options)
                        then validateRequired (fst st) (required fd) key
                        else Ok tt)) st
  | Type_ => check_only (lift (validateType (fst st) (type fd) key)) st
  | MaxLength =>
      check_only (lift (validateMaxLength (fst st) (maxLength fd) key)) st
  | MinLength =>
      check_only (lift (validateMinLength (fst st) (minLength fd) key)) st
  | Custom => check_only (validateCustom (fst st) (validateFn fd) key) st
  | ArrayElementType =>
      check_only (lift (validateArrayTypes (fst st) (arrayOf fd) key)) st
  | Transform => apply_transform key fd (fst st) (snd st)
  | NestedRecursion =>
      match nestedSchema fd with
      | None => ret st
      | Some nested =>
          bind (validate (fst st) nested options) (fun r =>
          bind (lift (prop_write (snd st) key r)) (fun d => ret (r, d)))
      end
  end.

Fixpoint run_rules (options : option ValidationOptions) (key : string)
  (fd : FieldDefinition) (rs : list rule_name) (st : value * value)
  : M (value * value) :=
  match rs with
  | [] => ret st
  | r :: rs' =>
      bind (run_rule options key fd r st) (run_rules options key fd rs')
  end.

Definition is_transform_call (e : event) : bool :=
  match e with CallTransform _ _ => true | _ => false end.

(** ** Dot paths and flat records *)

(** [strip_prefix pre x] is what follows [pre] in [x], when [x] starts with
    [pre]. *)
Fixpoint strip_prefix (pre x : string) : option string :=
  match pre with
  | EmptyString => Some x
  | String c pre' =>
      match x with
      | EmptyString => None
      | String c' x' => if Ascii.eqb c c' then strip_prefix pre' x' else None
      end
  end.

Fixpoint is_prefix (p q : list string) : bool :=
  match p, q with
  | [], _ => true
  | _ :: _, [] => false
  | a :: p', b :: q' => String.eqb a b && is_prefix p' q'
  end.

(** The loop of [flattenData] over the entries of a record. *)
Fixpoint flatten_loop (prefix : string) (es : list (string * value))
  (result : obj) : obj :=
  match es with
  | [] => result
  | (key, v) :: es' =>
      flatten_loop prefix es'
        (if is_plain v
         then obj_assign result (flatten_value v (prefix ++ key ++ "."))
         else obj_set (prefix ++ key) v result)
  end.








(** No value is a plain mapping. *)
Definition flat (F : obj) : Prop :=
  Forall (fun kv => is_plain (snd kv) = false) F.

(** No segment of a path is a name inherited from [Object.prototype]. *)
Definition ordinary (path : list string) : Prop :=
  Forall (fun s => inherited s = false) path.


(** No own property is named [__proto__]. *)
Definition no_proto (o : obj) : Prop := ~ In proto (keys o).


(** ** Dot notation, as specified *)

(** The options of a call with [allowDotNotation] turned off. *)
Definition without_dot (options : option ValidationOptions)
  : option ValidationOptions :=
  match options with
  | Some o =>
      Some (mkOptions (skipStrip o) (skipRequired o) (skipDefault o) false)
  | None => None
  end.

(** The validator as the specification words it: only the outermost
    invocation nests its input and flattens its result; the walk and its
    recursive calls work on the nested record as they do without dot
    notation. *)
Definition validate_outermost (data : value) (schema : SchemaDefiniton)
  (options : option ValidationOptions) : M value :=
  if flag allowDotNotation options then
    bind (lift (nestData data)) (fun n =>
    bind (validate (VObject n) schema (without_dot options)) (fun r =>
    lift (flatten_top r)))
  else validate data schema options.

(** ** Schemas and records of the examples *)

Local Open Scope string_scope.

(** A field definition with a type and nothing else. *)
Definition typed (t : string) : FieldDefinition :=
  mkField (Some t) None None None None None None None None.

(** The schema of the end-to-end scenario:
    [{name: {type: 'string', required: true}, age: {type: 'number'}}]. *)
Definition person_schema : SchemaDefiniton :=
  [("name", mkField (Some "string") (Some (Plain true))
              None None None None None None None);
   ("age", typed "number")].

Definition account_details : SchemaDefiniton :=
  [("isAdmin", mkField (Some "boolean") (Some (Plain true))
                 None None None None None None None);
   ("level", typed "integer")].

Definition account_schema : SchemaDefiniton :=
  [("details", mkField (Some "object") None None None None None None None
                 (Some account_details));
   ("age", typed "integer")].

Definition keep_all : option ValidationOptions :=
  Some (mkOptions true false false false).

Definition account : value :=
  VObject [("details", VObject []); ("age", VString "x")].

Definition profile_schema (required : option (rule bool)) : SchemaDefiniton :=
  [("name", typed "string");
   ("details", mkField (Some "object") required None None None None None None
                 (Some [("isAdmin", typed "boolean")]))].

Definition shouting : FieldDefinition :=
  mkField (Some "string") None None (Some (Plain 2%Z)) None
    (Some (Fn (fun _ => VNumber 7))) None None None.

Definition update : obj :=
  [("a.b", VNumber 1); ("c", VNumber 2); ("a.d", VNumber 3)].

Definition document : obj :=
  [("a", VObject [("b", VNumber 1); ("d", VNumber 3)]); ("c", VNumber 2)].

Definition user_schema : SchemaDefiniton :=
  [("details", mkField (Some "object") None None None None None None None
                 (Some [("isAdmin",
                         mkField (Some "boolean") None None None None None
                           (Some (Fn (fun _ => VBool false))) None None)]))].

Definition dotted : option ValidationOptions :=
  Some (mkOptions false false false true).

Definition dotted_keep_all : option ValidationOptions :=
  Some (mkOptions true false false true).

Definition nested_a : SchemaDefiniton :=
  [("a", mkField (Some "object") None None None None None None None
           (Some [("b", typed "number")]))].

Definition details_a : FieldDefinition :=
  mkField (Some "object") None None None None None None None (Some nested_a).

Definition nested_document : value :=
  VObject [("details", VObject [("a", VObject [("b", VNumber 1)])])].

(** A default supplier on [role] and a transform on [name]. *)
Definition member_schema : SchemaDefiniton :=
  [("role", mkField (Some "string") None None None None None
              (Some (Fn (fun _ => VString "user"))) None None);
   ("name", shouting)].

Definition skip_default : option ValidationOptions :=
  Some (mkOptions true false true false).

Local Close Scope string_scope.

(** ** Schemas with an attribute left out *)

(** The field definition, and the schema, without any [required]
    attribute, at every depth. *)
Fixpoint without_required_field (fd : FieldDefinition) : FieldDefinition :=
  match fd with
  | mkField t _ ma mi va tr de ar ns =>
      mkField t None ma mi va tr de ar
        (match ns with
         | Some nested =>
             Some (map (fun kf => (fst kf, without_required_field (snd kf)))
                     nested)
         | None => None
         end)
  end.

Definition without_required (schema : SchemaDefiniton) : SchemaDefiniton :=
  map (fun kf => (fst kf, without_required_field (snd kf))) schema.

Definition is_default_call (e : event) : bool :=
  match e with CallDefault _ => true | _ => false end.

(** ** Leaves of a flat record *)

(** A value on which a property cannot be created: [null] and the
    primitive booleans and numbers.  (A string is left out: it answers to
    its indices, to [length] and to the many names of
    [String.prototype].) *)
Definition is_primitive (v : value) : bool :=
  match v with
  | VNull | VBool _ | VNumber _ => true
  | _ => false
  end.

(** ** The calls of a Firestore query *)

(** The place of a call in the order [get] and [count] make them. *)
Definition rank (c : FirestoreCall) : nat :=
  match c with
  | QWhere _ => 0
  | QOrderBy _ => 1
  | QLimit _ => 2
  | QLimitToLast _ => 3
  | QStartAfter _ => 4
  | QEndBefore _ => 5
  | QOffset _ => 6
  | QCount => 7
  end.

(** [a] may come before [b]: a later kind of call, or two filters. *)
Definition before (a b : FirestoreCall) : Prop :=
  rank a < rank b \/ (rank a = 0 /\ rank b = 0).

Definition is_limit (c : FirestoreCall) : bool :=
  match c with
  | QLimit _ | QLimitToLast _ => true
  | _ => false
  end.

Definition opt {A} (m : A -> FirestoreCall) (x : option A)
  : list FirestoreCall :=
  match x with
  | Some a => [m a]
  | None => []
  end.

(** ** Options *)

(** The options of a call with [allowDotNotation] turned on. *)
Definition with_dot (options : option ValidationOptions)
  : option ValidationOptions :=
  Some (mkOptions (flag skipStrip options) (flag skipRequired options)
          (flag skipDefault options) true).

(** Whether validation is to be run by [Model.updateById]. *)
Definition validates (options : option ValidatingOptions) : bool :=
  negb (match options with Some o => skipValidation o | None => false end).

(** The working record keeps unique property names, none of them
    [__proto__]. *)
Definition keeps_wf (key : string) (d d' : value) : Prop :=
  match d, d' with
  | VObject o, VObject o' =>
      wf_obj o /\ no_proto o -> wf_obj o' /\ no_proto o'
  | _, _ => d = d'
  end.

(** * Properties *)

(** ** Evaluation on small inputs *)

Local Open Scope string_scope.

Example split_ex : split "a.b..c" = ["a"; "b"; EmptyString; "c"].
Proof. reflexivity. Qed.

Example nest_ex :
  nestData (VObject [("a.b", VNumber 1); ("c", VNumber 2); ("a.d", VNumber 3)])
  = Ok [("a", VObject [("b", VNumber 1); ("d", VNumber 3)]); ("c", VNumber 2)].
Proof. reflexivity. Qed.

Example flatten_ex :
  flattenData [("a", VObject [("b", VNumber 1); ("d", VNumber 3)]);
               ("c", VNumber 2)] EmptyString
  = [("a.b", VNumber 1); ("a.d", VNumber 3); ("c", VNumber 2)].
Proof. reflexivity. Qed.

Local Close Scope string_scope.

(** ** The stripper *)

Lemma obj_delete_filter (k : string) (o : obj) :
  obj_delete k o = filter (fun kv => negb (String.eqb k (fst kv))) o.
Proof.
  induction o as [|[k' v'] o IH]; simpl; [reflexivity|].
  destruct (String.eqb k k'); simpl; now rewrite IH.
Qed.

Lemma filter_twice {A} (f g : A -> bool) (l : list A) :
  filter f (filter g l) = filter (fun x => g x && f x) l.
Proof.
  induction l as [|a l IH]; simpl; [reflexivity|].
  destruct (g a); simpl; [destruct (f a)|]; now rewrite IH.
Qed.

Lemma strip_keys_filter (schema : SchemaDefiniton) (ks : list string) :
  forall o,
    strip_keys ks schema o
    = filter (fun kv => negb (schema_has (fst kv) schema
                              && existsb (String.eqb (fst kv)) ks)) o.
Proof.
  induction ks as [|k ks IH]; intros o; simpl.
  - induction o as [|kv o IHo]; simpl; [reflexivity|].
    rewrite andb_false_r; simpl. now rewrite <- IHo.
  - rewrite IH. destruct (schema_has k schema) eqn:Hk.
    + rewrite obj_delete_filter, filter_twice.
      apply filter_ext. intros [k' v']; simpl.
      rewrite (String.eqb_sym k' k).
      destruct (String.eqb k k') eqn:E; simpl.
      * apply String.eqb_eq in E; subst k'. now rewrite Hk.
      * reflexivity.
    + apply filter_ext. intros [k' v']; simpl.
      destruct (String.eqb k' k) eqn:E; simpl; [|reflexivity].
      apply String.eqb_eq in E; subst k'. now rewrite Hk.
Qed.

Lemma existsb_eqb_keys (k : string) (v : value) (o : obj) :
  In (k, v) o -> existsb (String.eqb k) (keys o) = true.
Proof.
  intros H. apply existsb_exists. exists k. split.
  - unfold keys. change k with (fst (k, v)). now apply in_map.
  - apply String.eqb_refl.
Qed.

(** What [stripData] does to a record: it keeps exactly the properties the
    schema does not declare, and deletes the declared ones. *)
Lemma stripData_record (o : obj) (schema : SchemaDefiniton) :
  stripData (VObject o) schema
  = Ok (VObject (filter (fun kv => negb (schema_has (fst kv) schema)) o)).
Proof.
  simpl. rewrite strip_keys_filter. do 2 f_equal.
  apply filter_ext_in. intros [k v] Hin; simpl.
  now rewrite (existsb_eqb_keys k v o Hin), andb_true_r.
Qed.

Local Open Scope string_scope.

(** C1.  The specification has the strip step delete exactly the keys of
    the record that the schema does not declare, so that a validated record
    keeps only declared keys; so do the comment above the call in
    [validate] and the README.  The test in [stripData] is the opposite
    one ([schema[key] !== undefined]): on the record [{a: 1, b: 2}] and the
    schema [{a: {type: 'number'}}] the declared key [a] is deleted and the
    undeclared key [b] is kept, by [stripData] and by [validate] with its
    default options. *)
Theorem C1_strip_deletes_the_declared_keys :
  stripData (VObject [("a", VNumber 1); ("b", VNumber 2)])
    [("a", typed "number")]
  = Ok (VObject [("b", VNumber 2)])
  /\ validate (VObject [("a", VNumber 1); ("b", VNumber 2)])
       [("a", typed "number")] None
     = ([], Ok (VObject [("b", VNumber 2)])).
Proof. split; reflexivity. Qed.

(** C2.  The specification's scenario: with no options object,
    [validate({name: "Ann"})] returns [{name: "Ann"}] and [validate({})]
    raises a required-field error that mentions [name].  The second half
    holds.  In the first, the strip step (see C1) has deleted [name] before
    the required rule reads it, and the call raises "name is required". *)
Theorem C2_scenario_raises_on_present_name :
  validate (VObject [("name", VString "Ann")]) person_schema None
  = ([], Throw (Error "name is required"))
  /\ validate (VObject []) person_schema None
     = ([], Throw (Error "name is required")).
Proof. split; reflexivity. Qed.

(** With stripping skipped the scenario returns the record unchanged. *)
Example scenario_without_strip :
  validate (VObject [("name", VString "Ann")]) person_schema
    (Some (mkOptions true false false false))
  = ([], Ok (VObject [("name", VString "Ann")])).
Proof. reflexivity. Qed.

(** ** The default supplier *)

(** When the supplier runs: stripping aside, exactly when defaults are not
    skipped, the value read is [undefined] and the definition has a
    supplier that is a function; then it runs once. *)
Lemma apply_default_trace (options : option ValidationOptions) (key : string)
  (fd : FieldDefinition) (v d : value) :
  trace (apply_default options key fd v d)
  = match v, defaultFn fd with
    | VUndefined, Some (Fn _) =>
        if flag skipDefault options then [] else [CallDefault key]
    | _, _ => []
    end.
Proof.
  unfold apply_default.
  destruct (flag skipDefault options); simpl;
    [now destruct v, (defaultFn fd) as [[]|]|].
  destruct v; try reflexivity; try (now destruct (defaultFn fd) as [[]|]).
  destruct (defaultFn fd) as [[f|]|]; try reflexivity.
  unfold assign, setDefault; simpl.
  now destruct (prop_write d key (f tt)).
Qed.

(** C7.  The specification has the supplier of a field run only when the
    field's value is [undefined], and never when the field is present in
    the input.  On the schema [{a: {type: 'number', default: () => 0}}] and
    the input [{a: 5}], with no options object, the strip step (see C1)
    deletes [a], the supplier is invoked and the result is [{a: 0}]. *)
Theorem C7_default_runs_on_a_present_field :
  validate (VObject [("a", VNumber 5)])
    [("a", mkField (Some "number") None None None None None
             (Some (Fn (fun _ => VNumber 0))) None None)]
    None
  = ([CallDefault "a"], Ok (VObject [("a", VNumber 0)])).
Proof. reflexivity. Qed.

Local Close Scope string_scope.

(** ** Sequencing *)

Lemma bind_ok {A B} (t : list event) (a : A) (k : A -> M B) :
  bind (t, Ok a) k = (t ++ trace (k a), result (k a)).
Proof. unfold bind, trace, result. now destruct (k a). Qed.

Lemma bind_throw {A B} (t : list event) (e : exn) (k : A -> M B) :
  bind (t, Throw e) k = (t, Throw e).
Proof. reflexivity. Qed.

Lemma bind_lift_ok {A B} (a : A) (k : A -> M B) :
  bind (lift (Ok a)) k = k a.
Proof. unfold lift. rewrite bind_ok. simpl. now destruct (k a). Qed.

Lemma bind_eq_ok {A B} (c : M A) (k : A -> M B) (t : list event) (a : A)
  (t' : list event) (r : outcome B) :
  c = (t, Ok a) -> k a = (t', r) -> bind c k = (t ++ t', r).
Proof. intros -> H. rewrite bind_ok, H. reflexivity. Qed.

Lemma bind_eq_throw {A B} (c : M A) (k : A -> M B) (t : list event) (e : exn) :
  c = (t, Throw e) -> bind c k = (t, Throw e).
Proof. now intros ->. Qed.

Lemma bind_not_ok {A B} (c : M A) (k : A -> M B) :
  (forall a, result c <> Ok a) -> forall b, result (bind c k) <> Ok b.
Proof.
  destruct c as [t [a| |]]; simpl; intros H b; try discriminate.
  now destruct (H a).
Qed.

Lemma bind_not_ok_r {A B} (c : M A) (k : A -> M B) :
  (forall a b, result (k a) <> Ok b) -> forall b, result (bind c k) <> Ok b.
Proof.
  destruct c as [t [a| |]]; simpl; intros H b; try discriminate.
  specialize (H a b). destruct (k a). exact H.
Qed.

Lemma walk_app (step : string -> FieldDefinition -> value -> M value)
  (schema1 schema2 : SchemaDefiniton) :
  forall d t d1,
    walk step schema1 d = (t, Ok d1) ->
    walk step (schema1 ++ schema2) d
    = (t ++ trace (walk step schema2 d1), result (walk step schema2 d1)).
Proof.
  induction schema1 as [|[k fd] schema1 IH]; intros d t d1 H; simpl in *.
  - injection H as <- <-. simpl. now destruct (walk step schema2 d).
  - destruct (step k fd d) as [t0 [d0| |]] eqn:E; try discriminate.
    rewrite bind_ok in *.
    destruct (walk step schema1 d0) as [t1 r1] eqn:E1.
    simpl in H. injection H as <- ->.
    rewrite (IH d0 t1 d1 E1). simpl. now rewrite app_assoc.
Qed.

(** ** Failure is immediate and propagates *)

Lemma rules_unfold (options : option ValidationOptions) (key : string)
  (fd : FieldDefinition) (d : value) :
  rules options key fd d
  = bind (field_rules options key fd d) (fun vd =>
      match nestedSchema fd with
      | None => ret (snd vd)
      | Some nested =>
          bind (validate (fst vd) nested options) (fun r =>
            lift (prop_write (snd vd) key r))
      end).
Proof. destruct fd; reflexivity. Qed.

Lemma validate_throws_at (options : option ValidationOptions)
  (schema1 schema2 : SchemaDefiniton) (key : string) (fd : FieldDefinition)
  (data d0 d1 : value) (t1 t2 : list event) (e : exn) :
  enter data (schema1 ++ (key, fd) :: schema2) options = Ok d0 ->
  walk (rules options) schema1 d0 = (t1, Ok d1) ->
  rules options key fd d1 = (t2, Throw e) ->
  validate data (schema1 ++ (key, fd) :: schema2) options
  = (t1 ++ t2, Throw e).
Proof.
  intros Henter Hwalk Hfield.
  unfold validate, validate_with. rewrite Henter, bind_lift_ok.
  rewrite (walk_app _ _ _ _ _ _ Hwalk). simpl. rewrite Hfield. reflexivity.
Qed.

(** C8.  Every rule failure aborts the whole call at once: when the
    fields declared before a field are processed without error and a rule
    of that field raises, or a rule below it in its nested schema does,
    [validate] raises that very exception, whatever the rest of the schema
    and of the record hold; the call yields the exception alone, no record
    and no second error. *)
Theorem C8_first_failure_aborts (options : option ValidationOptions)
  (schema : SchemaDefiniton) (data : value) (t : list event) (e : exn) :
  first_failure options schema data t e ->
  validate data schema options = (t, Throw e).
Proof.
  induction 1 as [schema1 key fd schema2 data d0 t1 d1 t2 e Henter Hwalk Hfield
                 |schema1 key fd schema2 data d0 t1 d1 t2 v d2 nested t3 e
                    Henter Hwalk Hfield Hnested _ IH].
  - apply (validate_throws_at _ _ _ _ _ _ _ _ _ _ _ Henter Hwalk).
    rewrite rules_unfold. now apply bind_eq_throw.
  - apply (validate_throws_at _ _ _ _ _ _ _ _ _ _ _ Henter Hwalk).
    rewrite rules_unfold.
    apply (bind_eq_ok _ _ _ _ _ _ Hfield).
    rewrite Hnested. simpl fst. now apply bind_eq_throw.
Qed.

Local Open Scope string_scope.

Lemma C8_first_failure_aborts_witness :
  first_failure keep_all account_schema account
    [] (Error "isAdmin is required")
  /\ validate account account_schema keep_all
     = ([], Throw (Error "isAdmin is required")).
Proof.
  assert (H : first_failure keep_all account_schema account
                [] (Error "isAdmin is required")).
  { apply (fails_below keep_all [] "details"
             (mkField (Some "object") None None None None None None None
                (Some account_details))
             [("age", typed "integer")]
             account account [] account [] (VObject []) account
             account_details [] (Error "isAdmin is required"));
      try reflexivity.
    apply (fails_here keep_all [] "isAdmin"
             (mkField (Some "boolean") (Some (Plain true))
                None None None None None None None)
             [("level", typed "integer")]
             (VObject []) (VObject []) [] (VObject []) []
             (Error "isAdmin is required"));
      reflexivity. }
  split; [exact H|].
  exact (C8_first_failure_aborts _ _ _ _ _ H).
Defined.

Local Close Scope string_scope.

(** ** Unrecognised types *)

(** The type check rejects such a type before it looks at the value. *)
Lemma validateType_unrecognised (v : value) (type : option string)
  (key : string) :
  includes SchemaTypes type = false ->
  validateType v type key = Throw (Error ("Invalid type for " ++ key)).
Proof. unfold validateType. now intros ->. Qed.

Lemma checks_unrecognised (options : option ValidationOptions) (key : string)
  (fd : FieldDefinition) (v : value) :
  includes SchemaTypes (type fd) = false ->
  forall u, result (checks options key fd v) <> Ok u.
Proof.
  intros H. unfold checks. apply bind_not_ok_r. intros _.
  apply bind_not_ok. intros a.
  rewrite (validateType_unrecognised _ _ _ H). discriminate.
Qed.

Lemma field_rules_unrecognised (options : option ValidationOptions)
  (key : string) (fd : FieldDefinition) (d : value) :
  includes SchemaTypes (type fd) = false ->
  forall r, result (field_rules options key fd d) <> Ok r.
Proof.
  intros H. unfold field_rules.
  apply bind_not_ok_r. intros v. apply bind_not_ok_r. intros vd.
  apply bind_not_ok. now apply checks_unrecognised.
Qed.

Lemma walk_not_ok (step : string -> FieldDefinition -> value -> M value)
  (schema : SchemaDefiniton) (key : string) (fd : FieldDefinition) :
  In (key, fd) schema ->
  (forall d r, result (step key fd d) <> Ok r) ->
  forall d r, result (walk step schema d) <> Ok r.
Proof.
  intros Hin Hstep.
  induction schema as [|[k f] schema IH]; [destruct Hin|].
  intros d. simpl. destruct Hin as [E|Hin].
  - injection E as -> ->. apply bind_not_ok. apply Hstep.
  - apply bind_not_ok_r. intros a. now apply IH.
Qed.

Lemma validate_with_not_ok (step : string -> FieldDefinition -> value -> M value)
  (schema : SchemaDefiniton) (options : option ValidationOptions) :
  (forall d r, result (walk step schema d) <> Ok r) ->
  forall data r, result (validate_with step data schema options) <> Ok r.
Proof.
  intros H data. unfold validate_with.
  apply bind_not_ok_r. intros d. apply bind_not_ok. apply H.
Qed.

(** C9.  A schema with a field whose declared type is missing or is not a
    member of the supported kinds never validates: for every input and
    all options the call ends in an exception, never in a record,
    whatever value the data holds for the field. *)
Theorem C9_unrecognised_type_never_validates (schema : SchemaDefiniton) :
  unrecognised_type schema ->
  forall (data : value) (options : option ValidationOptions) (r : value),
    result (validate data schema options) <> Ok r.
Proof.
  induction 1 as [schema key fd Hin Htype
                 |schema key fd nested Hin Hnested _ IH];
    intros data options; unfold validate;
    apply validate_with_not_ok; apply (walk_not_ok _ _ key fd Hin);
    intros d; rewrite rules_unfold.
  - apply bind_not_ok. now apply field_rules_unrecognised.
  - apply bind_not_ok_r. intros vd. rewrite Hnested.
    apply bind_not_ok. apply IH.
Qed.

Local Open Scope string_scope.

Lemma C9_unrecognised_type_never_validates_witness :
  unrecognised_type account_schema
  /\ forall r, result (validate account account_schema keep_all) <> Ok r.
Proof.
  assert (H : unrecognised_type account_schema).
  { apply (unrecognised_here account_schema "age" (typed "integer"));
      [right; left; reflexivity | reflexivity]. }
  split; [exact H|].
  exact (C9_unrecognised_type_never_validates _ H account keep_all).
Defined.

Local Close Scope string_scope.

(** ** A nested schema on an absent field *)

Lemma obj_get_set_other (k key : string) (v : value) (o : obj) :
  k <> key -> obj_get k (obj_set key v o) = obj_get k o.
Proof.
  intros Hne. induction o as [|[k' v'] o IH]; simpl.
  - destruct (String.eqb key proto); simpl; [reflexivity|].
    destruct (String.eqb_spec k key); [contradiction|reflexivity].
  - destruct (String.eqb_spec key k') as [->|Hk]; simpl.
    + destruct (String.eqb_spec k k'); [contradiction|reflexivity].
    + now rewrite IH.
Qed.

Lemma settable_cons (key k' : string) (v' : value) (o : obj) :
  settable key ((k', v') :: o)
  = if String.eqb key k' then true else settable key o.
Proof.
  unfold settable, own. simpl. now destruct (String.eqb key k').
Qed.

Lemma obj_get_set_same (key : string) (v : value) (o : obj) :
  settable key o = true -> obj_get key (obj_set key v o) = Some v.
Proof.
  induction o as [|[k' v'] o IH].
  - unfold settable, own. simpl. intros H.
    destruct (String.eqb key proto); [discriminate H|].
    simpl. now rewrite String.eqb_refl.
  - rewrite settable_cons. simpl.
    destruct (String.eqb_spec key k') as [->|Hk]; simpl.
    + now rewrite String.eqb_refl.
    + destruct (String.eqb_spec key k'); [contradiction|exact IH].
Qed.

(** A write that succeeds is an ordinary write on a plain object. *)
Lemma prop_write_ok (d : value) (key : string) (v d' : value) :
  prop_write d key v = Ok d' ->
  exists o, d = VObject o /\ settable key o = true
            /\ d' = VObject (obj_set key v o).
Proof.
  destruct d; simpl; try discriminate;
    try (destruct (String.eqb key proto); discriminate).
  destruct (settable key props) eqn:E; [|discriminate].
  intros H; injection H as <-. now exists props.
Qed.

Lemma obj_get_filter (f : string -> bool) (k : string) (o : obj) :
  obj_get k (filter (fun kv => f (fst kv)) o)
  = if f k then obj_get k o else None.
Proof.
  induction o as [|[k' v'] o IH]; simpl; [now destruct (f k)|].
  destruct (f k') eqn:Hf; simpl;
    destruct (String.eqb_spec k k') as [->|Hk]; rewrite ?Hf; try exact IH;
    try reflexivity.
  rewrite IH, Hf. reflexivity.
Qed.

Lemma same_but_refl (key : string) (d : value) : same_but key d d.
Proof. destruct d; simpl; auto. Qed.

Lemma prop_write_same_but (key : string) (d d' v : value) :
  prop_write d key v = Ok d' -> same_but key d d'.
Proof.
  intros H. apply prop_write_ok in H as (o & -> & _ & ->).
  intros k Hk. now apply obj_get_set_other.
Qed.

Lemma same_but_trans (key : string) (d1 d2 d3 : value) :
  same_but key d1 d2 -> same_but key d2 d3 -> same_but key d1 d3.
Proof.
  destruct d1, d2; simpl; intros H1; try discriminate H1;
    try (injection H1 as <-); try (intros H2; exact H2).
  destruct d3; simpl; intros H2; try discriminate H2.
  intros k Hk. now rewrite H2, H1.
Qed.

Lemma bind_inv_ok {A B} (c : M A) (k : A -> M B) (t : list event) (b : B) :
  bind c k = (t, Ok b) ->
  exists t1 a t2, c = (t1, Ok a) /\ k a = (t2, Ok b) /\ t = t1 ++ t2.
Proof.
  destruct c as [t1 [a| |]]; simpl; try discriminate.
  destruct (k a) as [t2 r] eqn:E. intros H; injection H as <- ->.
  now exists t1, a, t2.
Qed.

Section Preserved.

(** A relation between the working record before and after the loop body
    for the field [key], which every write to [key] establishes. *)
Variable R : string -> value -> value -> Prop.
Hypothesis R_refl : forall key d, R key d d.
Hypothesis R_trans :
  forall key d1 d2 d3, R key d1 d2 -> R key d2 d3 -> R key d1 d3.
Hypothesis R_write :
  forall key d v d', prop_write d key v = Ok d' -> R key d d'.

Lemma assign_preserves (key : string) (d v : value) (t : list event)
  (v' d' : value) :
  assign d key v = (t, Ok (v', d')) -> R key d d'.
Proof.
  unfold assign. destruct (prop_write d key v) as [d0| |] eqn:E;
    simpl; try discriminate.
  intros H; injection H as _ _ <-. now apply (R_write key d v d0).
Qed.

Lemma apply_default_preserves (options : option ValidationOptions)
  (key : string) (fd : FieldDefinition) (v d : value) (t : list event)
  (v' d' : value) :
  apply_default options key fd v d = (t, Ok (v', d')) -> R key d d'.
Proof.
  unfold apply_default.
  assert (Hret : ret (v, d) = (t, Ok (v', d')) -> R key d d').
  { intros H; injection H as _ _ <-. apply R_refl. }
  destruct (negb (flag skipDefault options)); [|exact Hret].
  destruct v; try exact Hret.
  destruct (defaultFn fd) as [[f|]|]; try exact Hret; [|discriminate].
  unfold setDefault. simpl.
  destruct (assign d key (f tt)) as [t0 [[a0 b0]| |]] eqn:E; try discriminate.
  intros H; injection H as _ _ <-. now apply (assign_preserves _ _ _ _ _ _ E).
Qed.

Lemma apply_transform_preserves (key : string) (fd : FieldDefinition)
  (v d : value) (t : list event) (v' d' : value) :
  apply_transform key fd v d = (t, Ok (v', d')) -> R key d d'.
Proof.
  unfold apply_transform.
  assert (Hret : ret (v, d) = (t, Ok (v', d')) -> R key d d').
  { intros H; injection H as _ _ <-. apply R_refl. }
  destruct (transformFn fd) as [[f|]|]; destruct v; try exact Hret;
    try discriminate;
    unfold doTransform; simpl;
    match goal with |- context [assign d key ?x] =>
      destruct (assign d key x) as [t0 [[a0 b0]| |]] eqn:E; try discriminate;
      intros H; injection H as _ _ <-;
      now apply (assign_preserves _ _ _ _ _ _ E)
    end.
Qed.

Lemma field_rules_preserves (options : option ValidationOptions)
  (key : string) (fd : FieldDefinition) (d : value) (t : list event)
  (v' d' : value) :
  field_rules options key fd d = (t, Ok (v', d')) -> R key d d'.
Proof.
  unfold field_rules. intros H.
  apply bind_inv_ok in H as (t1 & v & t2 & _ & H & _).
  apply bind_inv_ok in H as (t3 & [v1 d1] & t4 & Hd & H & _).
  apply bind_inv_ok in H as (t5 & [] & t6 & _ & H & _).
  apply (R_trans key d d1 d').
  - now apply (apply_default_preserves _ _ _ _ _ _ _ _ Hd).
  - now apply (apply_transform_preserves _ _ _ _ _ _ _ H).
Qed.

Lemma rules_preserves (options : option ValidationOptions)
  (key : string) (fd : FieldDefinition) (d : value) (t : list event)
  (d' : value) :
  rules options key fd d = (t, Ok d') -> R key d d'.
Proof.
  rewrite rules_unfold. intros H.
  apply bind_inv_ok in H as (t1 & [v1 d1] & t2 & Hf & H & _).
  apply field_rules_preserves in Hf.
  destruct (nestedSchema fd) as [nested|].
  - apply bind_inv_ok in H as (t3 & r & t4 & _ & H & _).
    unfold lift in H. injection H as _ H.
    apply (R_trans key d d1 d' Hf).
    now apply (R_write key d1 r d').
  - injection H as _ <-. exact Hf.
Qed.

End Preserved.

Lemma rules_same_but (options : option ValidationOptions)
  (key : string) (fd : FieldDefinition) (d : value) (t : list event)
  (d' : value) :
  rules options key fd d = (t, Ok d') -> same_but key d d'.
Proof.
  apply (rules_preserves same_but same_but_refl same_but_trans).
  intros k d0 v d0'. apply prop_write_same_but.
Qed.

Lemma keeps_keys_refl (key : string) (d : value) : keeps_keys key d d.
Proof. destruct d; simpl; auto. apply incl_refl. Qed.

Lemma keeps_keys_trans (key : string) (d1 d2 d3 : value) :
  keeps_keys key d1 d2 -> keeps_keys key d2 d3 -> keeps_keys key d1 d3.
Proof.
  destruct d1, d2; simpl; intros H1; try discriminate H1;
    try (injection H1 as <-); try (intros H2; exact H2).
  destruct d3; simpl; intros H2; try discriminate H2.
  exact (incl_tran H1 H2).
Qed.

Lemma prop_write_keeps_keys (key : string) (d v d' : value) :
  prop_write d key v = Ok d' -> keeps_keys key d d'.
Proof.
  intros H. apply prop_write_ok in H as (props & -> & _ & ->).
  intros k Hk.
  unfold keys in *. clear - Hk.
  induction props as [|[k' v'] o IH]; [destruct Hk|]. simpl.
  destruct (String.eqb key k'); simpl; [exact Hk|].
  destruct Hk as [E|Hk]; [now left|right; now apply IH].
Qed.

Lemma walk_keeps_keys (options : option ValidationOptions)
  (schema : SchemaDefiniton) :
  forall d t d',
    walk (rules options) schema d = (t, Ok d') ->
    keeps_keys EmptyString d d'.
Proof.
  induction schema as [|[k fd] schema IH]; intros d t d' H.
  - injection H as _ <-. apply keeps_keys_refl.
  - simpl in H. apply bind_inv_ok in H as (t1 & d1 & t2 & Hr & H & _).
    apply (keeps_keys_trans _ d d1 d'); [|exact (IH d1 t2 d' H)].
    apply (rules_preserves (fun _ => keeps_keys EmptyString)
             (fun _ => keeps_keys_refl EmptyString)
             (fun _ => keeps_keys_trans EmptyString)
             (fun key d0 v d0' => prop_write_keeps_keys key d0 v d0')
             options k fd d t1 d1 Hr).
Qed.

(** With stripping skipped (and no dot notation) a call deletes no
    property: the record it returns holds every name of its input. *)
Lemma validate_skipStrip_keeps_keys (options : option ValidationOptions)
  (schema : SchemaDefiniton) (o : obj) (t : list event) (d' : value) :
  flag skipStrip options = true ->
  flag allowDotNotation options = false ->
  validate (VObject o) schema options = (t, Ok d') ->
  exists o', d' = VObject o' /\ incl (keys o) (keys o').
Proof.
  intros Hstrip Hdot. unfold validate, validate_with, enter, leave.
  rewrite Hstrip, Hdot. cbn [obind negb]. rewrite bind_lift_ok.
  intros H. apply bind_inv_ok in H as (t1 & d1 & t2 & Hw & H & _).
  unfold lift in H. injection H as _ <-.
  apply walk_keeps_keys in Hw. destruct d1; try discriminate Hw.
  now eexists.
Qed.

Lemma same_but_read (key' key : string) (d d' : value) :
  same_but key' d d' -> key <> key' -> prop_read d' key = prop_read d key.
Proof.
  destruct d, d'; simpl; intros H Hne; try discriminate H;
    try (injection H as <-); try reflexivity.
  unfold obj_lookup. now rewrite (H key Hne).
Qed.

(** Processing the fields of a schema leaves alone the properties that the
    schema does not name. *)
Lemma walk_read_other (options : option ValidationOptions) (key : string)
  (schema : SchemaDefiniton) :
  ~ In key (map fst schema) ->
  forall d t d',
    walk (rules options) schema d = (t, Ok d') ->
    prop_read d' key = prop_read d key.
Proof.
  induction schema as [|[k fd] schema IH]; intros Hnot d t d' H.
  - injection H as _ <-. reflexivity.
  - simpl in H. apply bind_inv_ok in H as (t1 & d1 & t2 & Hr & H & _).
    simpl in Hnot.
    rewrite (IH (fun Hin => Hnot (or_intror Hin)) d1 t2 d' H).
    apply (same_but_read k key d d1).
    + now apply (rules_same_but options k fd d t1 d1).
    + intros <-. apply Hnot. now left.
Qed.

Lemma enter_record_read (options : option ValidationOptions) (o : obj)
  (schema : SchemaDefiniton) (key : string) (d0 : value) :
  flag allowDotNotation options = false ->
  obj_read key o = VUndefined ->
  inherited key = false ->
  enter (VObject o) schema options = Ok d0 ->
  prop_read d0 key = Ok VUndefined.
Proof.
  unfold enter. intros -> Hread Hown. unfold obind.
  assert (E : obj_lookup key o = Ok VUndefined).
  { unfold obj_lookup, obj_read in *. rewrite Hown.
    destruct (obj_get key o); [now subst|reflexivity]. }
  destruct (negb (flag skipStrip options)).
  - rewrite stripData_record. intros H; injection H as <-. simpl.
    unfold obj_lookup in *.
    rewrite (obj_get_filter (fun k => negb (schema_has k schema))).
    destruct (negb (schema_has key schema)); [exact E|].
    now rewrite Hown.
  - intros H; injection H as <-. exact E.
Qed.

Lemma validate_undefined_raises (options : option ValidationOptions)
  (nested : SchemaDefiniton) :
  flag allowDotNotation options = false ->
  nested <> [] ->
  validate VUndefined nested options = ([], Throw reading_undefined).
Proof.
  intros Hdot Hne. destruct nested as [|[k fd] nested]; [contradiction|].
  unfold validate, validate_with, enter. rewrite Hdot. unfold obind.
  assert (E : (if negb (flag skipStrip options)
               then stripData VUndefined ((k, fd) :: nested)
               else Ok VUndefined) = Ok VUndefined)
    by now destruct (negb (flag skipStrip options)).
  rewrite E, bind_lift_ok. simpl walk. rewrite rules_unfold.
  reflexivity.
Qed.

Lemma bind_lift {A B} (c : outcome A) (k : A -> M B) :
  bind (lift c) k
  = match c with
    | Ok a => k a
    | Throw e => ([], Throw e)
    | Unmodelled => ([], Unmodelled)
    end.
Proof. destruct c; try reflexivity. apply bind_lift_ok. Qed.

(** No callback runs on an undefined value. *)
Lemma checks_undefined_trace (options : option ValidationOptions)
  (key : string) (fd : FieldDefinition) :
  trace (checks options key fd VUndefined) = [].
Proof.
  unfold checks. rewrite !bind_lift.
  destruct (if negb (flag skipRequired options)
            then validateRequired VUndefined (required fd) key else Ok tt);
    try reflexivity.
  destruct (validateType VUndefined (type fd) key); try reflexivity.
  destruct (validateMaxLength VUndefined (maxLength fd) key); try reflexivity.
  destruct (validateMinLength VUndefined (minLength fd) key); reflexivity.
Qed.

Lemma rules_absent_nested (options : option ValidationOptions) (key : string)
  (fd : FieldDefinition) (nested : SchemaDefiniton) (d : value) :
  flag allowDotNotation options = false ->
  nestedSchema fd = Some nested -> nested <> [] ->
  defaultFn fd = None ->
  prop_read d key = Ok VUndefined ->
  result (checks options key fd VUndefined) = Ok tt ->
  rules options key fd d = ([], Throw reading_undefined).
Proof.
  intros Hdot Hnested Hne Hdefault Hread Hchecks.
  assert (Hc : checks options key fd VUndefined = ([], Ok tt)).
  { pose proof (checks_undefined_trace options key fd) as Ht.
    destruct (checks options key fd VUndefined) as [tc rc].
    simpl in *. now subst. }
  rewrite rules_unfold. unfold field_rules.
  rewrite Hread, bind_lift_ok.
  assert (Hd : apply_default options key fd VUndefined d
               = ([], Ok (VUndefined, d))).
  { unfold apply_default. rewrite Hdefault.
    now destruct (negb (flag skipDefault options)). }
  rewrite Hd, bind_ok. simpl fst. simpl snd. rewrite Hc, bind_ok.
  simpl apply_transform. unfold ret at 1. simpl.
  rewrite Hnested, (validate_undefined_raises options nested Hdot Hne).
  reflexivity.
Qed.

(** C10, as the code has it.  For a field with a non-empty nested schema
    and no default supplier, absent from the input record and not named
    like a member the record inherits from [Object.prototype] (reading such
    a name yields the inherited member, not [undefined]), and a call
    without dot notation: when the fields declared before it are processed
    without error and the field's own checks accept [undefined] (it is not
    required, or the required rule is skipped; its type is recognised;
    its length bounds are well formed), [validate] raises the
    [TypeError] of reading a property of [undefined], from the recursive
    call, and returns no record. *)
Theorem C10_absent_nested_record_raises (options : option ValidationOptions)
  (schema1 : SchemaDefiniton) (key : string) (fd : FieldDefinition)
  (schema2 nested : SchemaDefiniton) (o : obj) (d0 : value) (t : list event)
  (d1 : value) :
  flag allowDotNotation options = false ->
  nestedSchema fd = Some nested -> nested <> [] ->
  defaultFn fd = None ->
  obj_read key o = VUndefined ->
  inherited key = false ->
  ~ In key (map fst schema1) ->
  enter (VObject o) (schema1 ++ (key, fd) :: schema2) options = Ok d0 ->
  walk (rules options) schema1 d0 = (t, Ok d1) ->
  result (checks options key fd VUndefined) = Ok tt ->
  validate (VObject o) (schema1 ++ (key, fd) :: schema2) options
  = (t, Throw reading_undefined).
Proof.
  intros Hdot Hnested Hne Hdefault Habsent Hown Hnot Henter Hwalk Hchecks.
  rewrite <- (app_nil_r t).
  apply (validate_throws_at _ _ _ _ _ _ _ _ _ _ _ Henter Hwalk).
  apply (rules_absent_nested options key fd nested d1 Hdot Hnested Hne
           Hdefault); [|exact Hchecks].
  rewrite (walk_read_other options key schema1 Hnot d0 t d1 Hwalk).
  exact (enter_record_read options o _ key d0 Hdot Habsent Hown Henter).
Qed.

Local Open Scope string_scope.

Lemma C10_absent_nested_record_raises_witness :
  validate (VObject [("name", VString "Ann")]) (profile_schema None) keep_all
  = ([], Throw reading_undefined).
Proof.
  apply (C10_absent_nested_record_raises keep_all
           [("name", typed "string")] "details"
           (mkField (Some "object") None None None None None None None
              (Some [("isAdmin", typed "boolean")]))
           [] [("isAdmin", typed "boolean")]
           [("name", VString "Ann")]
           (VObject [("name", VString "Ann")]) []
           (VObject [("name", VString "Ann")]));
    try reflexivity.
  - discriminate.
  - simpl. intros [H|[]]. discriminate H.
Defined.

(** C10 as stated fails on a field that is required: the required rule
    raises its own error before the recursion is reached. *)
Lemma C10_counterexample :
  ~ (forall (schema : SchemaDefiniton) (key : string) (fd : FieldDefinition)
       (nested : SchemaDefiniton) (o : obj)
       (options : option ValidationOptions),
        In (key, fd) schema ->
        nestedSchema fd = Some nested -> nested <> [] ->
        defaultFn fd = None ->
        flag allowDotNotation options = false ->
        obj_read key o = VUndefined ->
        exists m, result (validate (VObject o) schema options)
                  = Throw (TypeError m)).
Proof.
  intros H.
  destruct (H (profile_schema (Some (Plain true))) "details"
              (mkField (Some "object") (Some (Plain true)) None None None None
                 None None (Some [("isAdmin", typed "boolean")]))
              [("isAdmin", typed "boolean")] [] None) as [m Hm];
    try reflexivity.
  - right; left; reflexivity.
  - discriminate.
  - discriminate Hm.
Qed.

Local Close Scope string_scope.

(** ** Length bounds *)

Lemma ltb_cases (a b : Z) (x y : outcome unit) :
  (if (a <? b)%Z then x else y) = (if (b <=? a)%Z then y else x).
Proof. destruct (Z.ltb_spec a b), (Z.leb_spec b a); try reflexivity; lia. Qed.

Lemma gtb_cases (a b : Z) (x y : outcome unit) :
  (if (a >? b)%Z then x else y) = (if (a <=? b)%Z then y else x).
Proof.
  rewrite Z.gtb_ltb.
  destruct (Z.ltb_spec b a), (Z.leb_spec a b); try reflexivity; lia.
Qed.

Lemma if_twice {A} (b : bool) (x y z : A) :
  (if b then x else if b then y else z) = (if b then x else z).
Proof. now destruct b. Qed.

Lemma bounded_cases (b : bool) (P : Prop) (message : string) :
  (b = true <-> P) ->
  ((if b then Ok tt else Throw (Error message)) = Ok tt <-> P)
  /\ (~ P -> raises_error (if b then Ok tt else Throw (Error message))).
Proof.
  intros H. destruct b; split.
  - tauto.
  - intros Hn. exfalso. tauto.
  - split; [discriminate|]. intros HP. apply H in HP. discriminate.
  - intros _. now exists message.
Qed.

(** C6, as the code has it.  For a well-formed bound [n] and a value
    other than [null]: the length rules measure strings by their
    characters, arrays by their elements and every other object (plain
    objects, and also dates and regular expressions, which have no own
    properties) by its own properties; [minLength] passes exactly when
    [n <= size] and [maxLength] exactly when [size <= n], so a size equal to
    the bound passes, and outside the bound the rule raises an error;
    [undefined], booleans, numbers and functions pass both rules whatever
    the bound. *)
Theorem C6_length_rules (v : value) (r : rule Z) (n : Z) (key : string) :
  v <> VNull ->
  scalar r = Some n ->
  match measured v with
  | Some size =>
      (validateMinLength v (Some r) key = Ok tt <-> (n <= size)%Z)
      /\ (validateMaxLength v (Some r) key = Ok tt <-> (size <= n)%Z)
      /\ ((size < n)%Z -> raises_error (validateMinLength v (Some r) key))
      /\ ((n < size)%Z -> raises_error (validateMaxLength v (Some r) key))
  | None =>
      validateMinLength v (Some r) key = Ok tt
      /\ validateMaxLength v (Some r) key = Ok tt
  end.
Proof.
  intros Hnull Hr.
  assert (Hmin : forall size message,
             ((if (size <? n)%Z then Throw (Error message) else Ok tt) = Ok tt
              <-> (n <= size)%Z)
             /\ ((size < n)%Z ->
                 raises_error (if (size <? n)%Z then Throw (Error message)
                               else Ok tt))).
  { intros size message. rewrite ltb_cases.
    destruct (bounded_cases (n <=? size)%Z (n <= size)%Z message
                (Z.leb_le n size)) as [H1 H2].
    split; [exact H1|]. intros Hlt. apply H2. lia. }
  assert (Hmax : forall size message,
             ((if (size >? n)%Z then Throw (Error message) else Ok tt) = Ok tt
              <-> (size <= n)%Z)
             /\ ((n < size)%Z ->
                 raises_error (if (size >? n)%Z then Throw (Error message)
                               else Ok tt))).
  { intros size message. rewrite gtb_cases.
    destruct (bounded_cases (size <=? n)%Z (size <= n)%Z message
                (Z.leb_le size n)) as [H1 H2].
    split; [exact H1|]. intros Hlt. apply H2. lia. }
  destruct r as [a|a msg|]; simpl in Hr; try discriminate;
    injection Hr as ->;
    destruct v; try contradiction; simpl; try (split; reflexivity);
    rewrite ?if_twice;
    repeat match goal with
    | |- _ /\ _ => split
    | |- (if (?s <? n)%Z then Throw (Error ?m) else _) = _ <-> _ =>
        exact (proj1 (Hmin s m))
    | |- _ -> raises_error (if (?s <? n)%Z then Throw (Error ?m) else _) =>
        exact (proj2 (Hmin s m))
    | |- (if (?s >? n)%Z then Throw (Error ?m) else _) = _ <-> _ =>
        exact (proj1 (Hmax s m))
    | |- _ -> raises_error (if (?s >? n)%Z then Throw (Error ?m) else _) =>
        exact (proj2 (Hmax s m))
    end.
Qed.

Local Open Scope string_scope.

Lemma C6_length_rules_witness :
  validateMinLength (VString "abc") (Some (Plain 3%Z)) "code" = Ok tt
  /\ validateMaxLength (VString "abc") (Some (Plain 3%Z)) "code" = Ok tt
  /\ raises_error (validateMinLength (VString "abc") (Some (Plain 4%Z)) "code")
  /\ raises_error (validateMaxLength (VString "abc") (Some (Plain 2%Z)) "code").
Proof.
  assert (Hv : VString "abc" <> VNull) by discriminate.
  pose proof (C6_length_rules (VString "abc") (Plain 3%Z) 3%Z "code" Hv eq_refl)
    as (Hmin & Hmax & _ & _).
  pose proof (C6_length_rules (VString "abc") (Plain 4%Z) 4%Z "code" Hv eq_refl)
    as (_ & _ & Hlow & _).
  pose proof (C6_length_rules (VString "abc") (Plain 2%Z) 2%Z "code" Hv eq_refl)
    as (_ & _ & _ & Hhigh).
  split; [|split; [|split]].
  - apply Hmin. simpl. lia.
  - apply Hmax. simpl. lia.
  - apply Hlow. simpl. lia.
  - apply Hhigh. simpl. lia.
Defined.

(** C6 as stated fails on a value that is neither a string, an array nor a
    plain object: a [Date] is measured as an object without properties,
    and a lower bound of one rejects it. *)
Lemma C6_counterexample :
  ~ (forall (v : value) (n : Z) (key : string),
        (forall s, v <> VString s) ->
        (forall l, v <> VArray l) ->
        (forall o, v <> VObject o) ->
        validateMinLength v (Some (Plain n)) key = Ok tt).
Proof.
  intros H.
  specialize (H (VDate 0%Z) 1%Z "createdAt").
  simpl in H.
  assert (E : Throw (Error "createdAt must contain at least 1 properties")
              = @Ok unit tt)
    by (apply H; discriminate).
  discriminate E.
Qed.

(** On [null] the length rules raise a [TypeError] from [Object.keys]. *)
Example length_rule_on_null :
  validateMinLength VNull (Some (Plain 1%Z)) "bio"
  = Throw (TypeError "Cannot convert undefined or null to object").
Proof. reflexivity. Qed.

Local Close Scope string_scope.

(** ** The order of the rules of a field *)

Lemma bind_assoc {A B C} (c : M A) (f : A -> M B) (g : B -> M C) :
  bind (bind c f) g = bind c (fun a => bind (f a) g).
Proof.
  destruct c as [t [a| |]]; try reflexivity.
  rewrite !bind_ok. destruct (f a) as [t1 [b| |]]; simpl; try reflexivity.
  destruct (g b) as [t2 r]. simpl. now rewrite app_assoc.
Qed.

Lemma bind_ext {A B} (c : M A) (f g : A -> M B) :
  (forall a, f a = g a) -> bind c f = bind c g.
Proof. intros H. destruct c as [t [a| |]]; simpl; now rewrite ?H. Qed.

Lemma bind_ret_l {A B} (a : A) (k : A -> M B) : bind (ret a) k = k a.
Proof. apply (bind_lift_ok a k). Qed.

Lemma bind_ret_r {A} (c : M A) : bind c ret = c.
Proof.
  destruct c as [t [a| |]]; simpl; try reflexivity. now rewrite app_nil_r.
Qed.

Lemma check_only_bind {B} (c : M unit) (st : value * value)
  (k : value * value -> M B) :
  bind (check_only c st) k = bind c (fun _ => k st).
Proof.
  unfold check_only. rewrite bind_assoc. apply bind_ext. intros _.
  apply bind_ret_l.
Qed.

(** The loop body is the rules run in the order of [rule_order]. *)
Lemma rules_in_order (options : option ValidationOptions) (key : string)
  (fd : FieldDefinition) (d : value) :
  rules options key fd d
  = bind (lift (prop_read d key)) (fun v =>
    bind (run_rules options key fd rule_order (v, d)) (fun st =>
    ret (snd st))).
Proof.
  rewrite rules_unfold. unfold field_rules, checks.
  rewrite bind_assoc. apply bind_ext. intros v.
  unfold rule_order. cbn [run_rules].
  rewrite !bind_assoc. unfold run_rule at 1. cbn [fst snd].
  apply bind_ext. intros st.
  do 6 (rewrite !bind_assoc; unfold run_rule at 1;
        rewrite check_only_bind; apply bind_ext; intros _).
  rewrite !bind_assoc. unfold run_rule at 1.
  apply bind_ext. intros st'.
  rewrite bind_assoc. unfold run_rule.
  destruct (nestedSchema fd) as [nested|].
  - rewrite !bind_assoc. apply bind_ext. intros r.
    rewrite !bind_assoc, bind_lift.
    unfold lift. destruct (prop_write (snd st') key r); reflexivity.
  - now rewrite !bind_ret_l.
Qed.

Lemma trace_bind {A B} (c : M A) (k : A -> M B) :
  trace (bind c k)
  = trace c ++ match result c with Ok a => trace (k a) | _ => [] end.
Proof.
  destruct c as [t [a| |]]; simpl; rewrite ?app_nil_r; try reflexivity.
  now destruct (k a).
Qed.

Lemma result_bind {A B} (c : M A) (k : A -> M B) :
  result (bind c k)
  = match result c with
    | Ok a => result (k a)
    | Throw e => Throw e
    | Unmodelled => Unmodelled
    end.
Proof. destruct c as [t [a| |]]; simpl; try reflexivity. now destruct (k a). Qed.

Lemma validateCustom_trace (v : value) (validate : option (rule (value -> bool)))
  (key : string) :
  forallb (fun e => negb (is_transform_call e))
    (trace (validateCustom v validate key)) = true.
Proof.
  destruct validate as [[f|f msg|]|], v; try reflexivity;
    simpl; now destruct (f _).
Qed.

Lemma checks_trace (options : option ValidationOptions) (key : string)
  (fd : FieldDefinition) (v : value) :
  forallb (fun e => negb (is_transform_call e))
    (trace (checks options key fd v)) = true.
Proof.
  unfold checks. rewrite !bind_lift.
  destruct (if negb (flag skipRequired options)
            then validateRequired v (required fd) key else Ok tt);
    try reflexivity.
  destruct (validateType v (type fd) key); try reflexivity.
  destruct (validateMaxLength v (maxLength fd) key); try reflexivity.
  destruct (validateMinLength v (minLength fd) key); try reflexivity.
  rewrite trace_bind, forallb_app, validateCustom_trace. simpl.
  destruct (result (validateCustom v (validateFn fd) key)); reflexivity.
Qed.

Lemma apply_transform_trace (key : string) (fd : FieldDefinition)
  (v d : value) (e : event) :
  In e (trace (apply_transform key fd v d)) ->
  e = CallTransform key v /\ v <> VUndefined.
Proof.
  unfold apply_transform.
  destruct (transformFn fd) as [[f|]|]; destruct v; simpl;
    try contradiction;
    unfold assign;
    match goal with |- context [prop_write d key ?x] =>
      destruct (prop_write d key x); simpl
    end;
    (intros [<-|[]]; split; [reflexivity|discriminate]).
Qed.

Lemma no_transform_call (t : list event) (e : event) :
  forallb (fun e => negb (is_transform_call e)) t = true ->
  In e t -> is_transform_call e = false.
Proof.
  intros H Hin. rewrite forallb_forall in H.
  apply negb_true_iff. now apply H.
Qed.

Lemma field_rules_transform_call (options : option ValidationOptions)
  (key : string) (fd : FieldDefinition) (d : value) (k : string)
  (arg : value) :
  In (CallTransform k arg) (trace (field_rules options key fd d)) ->
  k = key /\ arg <> VUndefined
  /\ result (checks options key fd arg) = Ok tt.
Proof.
  unfold field_rules. rewrite bind_lift.
  destruct (prop_read d key) as [v| |]; try contradiction.
  rewrite trace_bind. intros H. apply in_app_or in H as [H|H].
  - rewrite apply_default_trace in H.
    destruct v; try contradiction.
    destruct (defaultFn fd) as [[f|]|]; try contradiction.
    destruct (flag skipDefault options); try contradiction.
    destruct H as [H|[]]. discriminate H.
  - destruct (result (apply_default options key fd v d)) as [[v1 d1]| |];
      try contradiction.
    simpl fst in H. simpl snd in H. rewrite trace_bind in H.
    apply in_app_or in H as [H|H].
    + apply (no_transform_call _ _ (checks_trace options key fd v1)) in H.
      discriminate H.
    + destruct (result (checks options key fd v1)) as [[]| |] eqn:E;
        try contradiction.
      apply apply_transform_trace in H as [H Hv].
      injection H as -> ->. now repeat split.
Qed.

Lemma field_rules_transformed (options : option ValidationOptions)
  (key : string) (fd : FieldDefinition) (d v0 : value) (t1 : list event)
  (v d1 : value) (t2 : list event) (f : value -> value) (d2 : value) :
  prop_read d key = Ok v0 ->
  apply_default options key fd v0 d = (t1, Ok (v, d1)) ->
  checks options key fd v = (t2, Ok tt) ->
  v <> VUndefined ->
  transformFn fd = Some (Fn f) ->
  prop_write d1 key (f v) = Ok d2 ->
  field_rules options key fd d
  = (t1 ++ t2 ++ [CallTransform key v], Ok (f v, d2)).
Proof.
  intros Hread Hdefault Hchecks Hv Hf Hwrite.
  unfold field_rules. rewrite Hread, bind_lift_ok.
  apply (bind_eq_ok _ _ _ _ _ _ Hdefault). simpl fst. simpl snd.
  apply (bind_eq_ok _ _ _ _ _ _ Hchecks).
  unfold apply_transform. rewrite Hf.
  destruct v; try contradiction; unfold doTransform, assign; simpl;
    now rewrite Hwrite.
Qed.

(** C4.  Within one call the rules of a field run in the fixed order
    default, required, type, maxLength, minLength, custom,
    array-element type, transform, nested recursion.  The transform
    function is called only on a defined value that has passed all the
    checks (so it is not called when a check fails), and its result is
    stored as it is: no check runs again on it. *)
Theorem C4_rule_order_and_transform (options : option ValidationOptions)
  (key : string) (fd : FieldDefinition) (d : value) :
  rules options key fd d
  = bind (lift (prop_read d key)) (fun v =>
    bind (run_rules options key fd rule_order (v, d)) (fun st =>
    ret (snd st)))
  /\ (forall k arg,
        In (CallTransform k arg) (trace (field_rules options key fd d)) ->
        k = key /\ arg <> VUndefined
        /\ result (checks options key fd arg) = Ok tt)
  /\ (forall v0 t1 v d1 t2 f d2,
        prop_read d key = Ok v0 ->
        apply_default options key fd v0 d = (t1, Ok (v, d1)) ->
        checks options key fd v = (t2, Ok tt) ->
        v <> VUndefined ->
        transformFn fd = Some (Fn f) ->
        prop_write d1 key (f v) = Ok d2 ->
        field_rules options key fd d
        = (t1 ++ t2 ++ [CallTransform key v], Ok (f v, d2))).
Proof.
  split; [apply rules_in_order|split].
  - apply field_rules_transform_call.
  - apply field_rules_transformed.
Qed.

Local Open Scope string_scope.

(** A transform that turns a string into a number: the number is stored
    under a field of type string with a minimal length. *)
Lemma C4_rule_order_and_transform_witness :
  field_rules None "name" shouting (VObject [("name", VString "ann")])
  = ([CallTransform "name" (VString "ann")],
     Ok (VNumber 7, VObject [("name", VNumber 7)]))
  /\ result (checks None "name" shouting (VString "ann")) = Ok tt.
Proof.
  pose proof (C4_rule_order_and_transform None "name" shouting
                (VObject [("name", VString "ann")])) as (_ & Honly & Hstored).
  assert (E : field_rules None "name" shouting
                (VObject [("name", VString "ann")])
              = ([CallTransform "name" (VString "ann")],
                 Ok (VNumber 7, VObject [("name", VNumber 7)]))).
  { apply (Hstored (VString "ann") [] (VString "ann")
             (VObject [("name", VString "ann")]) []
             (fun _ => VNumber 7) (VObject [("name", VNumber 7)]));
      try reflexivity.
    discriminate. }
  split; [exact E|].
  apply (Honly "name" (VString "ann")).
  rewrite E. left. reflexivity.
Defined.

Local Close Scope string_scope.

(** ** Dot paths *)

Lemma split_not_nil (s : string) : split s <> [].
Proof.
  destruct s as [|c s]; simpl; [discriminate|].
  destruct (Ascii.eqb c dot); [discriminate|].
  destruct (split s); discriminate.
Qed.





Lemma dot_free_split (k : string) : dot_free k = true -> split k = [k].
Proof.
  induction k as [|c k IH]; [reflexivity|]. simpl.
  destruct (Ascii.eqb c dot); simpl; [discriminate|].
  intros H. now rewrite (IH H).
Qed.

Lemma strip_prefix_app (a b x : string) :
  strip_prefix (a ++ b) x
  = match strip_prefix a x with
    | Some s => strip_prefix b s
    | None => None
    end.
Proof.
  revert x. induction a as [|c a IH]; intros x; [reflexivity|]. simpl.
  destruct x as [|c' x]; [reflexivity|].
  destruct (Ascii.eqb c c'); [apply IH|reflexivity].
Qed.


(** Splitting what follows a dot-free segment and a dot. *)
Lemma split_strip_prefix (k : string) :
  dot_free k = true ->
  forall s,
    match strip_prefix (k ++ String dot EmptyString) s with
    | Some s' => split s = k :: split s'
    | None => forall rest, split s = k :: rest -> rest = []
    end.
Proof.
  induction k as [|a k IH]; intros Hk s.
  - cbn [append strip_prefix]. destruct s as [|c s]; cbn [split].
    + intros rest H. now injection H as <-.
    + rewrite (Ascii.eqb_sym dot c).
      destruct (Ascii.eqb c dot); [reflexivity|].
      intros rest H. destruct (split s); discriminate H.
  - cbn [dot_free] in Hk. apply andb_true_iff in Hk as [Ha Hk].
    apply negb_true_iff in Ha. cbn [append strip_prefix].
    destruct s as [|c s]; [intros rest H; discriminate H|].
    destruct (Ascii.eqb_spec a c) as [<-|Hac].
    + specialize (IH Hk s). cbn [split]. rewrite Ha.
      destruct (strip_prefix (k ++ String dot EmptyString) s) as [s'|].
      * now rewrite IH.
      * intros rest H. destruct (split s) as [|seg segs] eqn:E;
          [now destruct (split_not_nil s)|].
        injection H as -> ->. now apply (IH rest).
    + intros rest H. cbn [split] in H.
      destruct (Ascii.eqb c dot); [discriminate H|].
      destruct (split s); injection H as H _; now destruct Hac.
Qed.

(** ** Records as trees of segments *)

(** Induction on a value through the properties of its plain objects. *)
Lemma value_obj_ind (P : value -> Prop) :
  (forall o, Forall (fun kv => P (snd kv)) o -> P (VObject o)) ->
  (forall v, is_plain v = false -> P v) ->
  forall v, P v.
Proof.
  intros Hobj Hother.
  fix IH 1. intros v. destruct v as [| | | | | |o| | |];
    try (apply Hother; reflexivity).
  apply Hobj. induction o as [|[k x] o IHo]; constructor.
  - apply IH.
  - exact IHo.
Qed.


Lemma settable_ordinary (k : string) (o : obj) :
  String.eqb k proto = false -> settable k o = true.
Proof. unfold settable. intros ->. apply orb_true_r. Qed.

Lemma inherited_proto (k : string) :
  inherited k = false -> String.eqb k proto = false.
Proof.
  intros H. destruct (String.eqb_spec k proto) as [->|]; [|reflexivity].
  vm_compute in H. discriminate H.
Qed.





Lemma obj_get_absent (k : string) (o : obj) :
  ~ In k (keys o) -> obj_get k o = None.
Proof.
  induction o as [|[k' v] o IH]; [reflexivity|]. simpl. intros H.
  destruct (String.eqb_spec k k') as [->|Hne].
  - destruct H. now left.
  - apply IH. intros Hin. apply H. now right.
Qed.

Lemma keys_obj_set (k : string) (v : value) (o : obj) :
  keys (obj_set k v o)
  = if existsb (String.eqb k) (keys o) || String.eqb k proto then keys o
    else keys o ++ [k].
Proof.
  induction o as [|[k' v'] o IH]; simpl.
  - now destruct (String.eqb k proto).
  - destruct (String.eqb k k'); simpl; [reflexivity|].
    rewrite IH.
    now destruct (existsb (String.eqb k) (keys o) || String.eqb k proto).
Qed.

Lemma obj_set_wf (k : string) (v : value) (o : obj) :
  wf_obj o -> wf_obj (obj_set k v o).
Proof.
  unfold wf_obj. rewrite keys_obj_set.
  destruct (existsb (String.eqb k) (keys o)) eqn:E; [trivial|].
  destruct (String.eqb k proto); [trivial|]. cbn [orb].
  intros H. apply NoDup_app; [exact H|repeat constructor; intros []|].
  intros a Ha [Ek|[]]. subst a.
  assert (existsb (String.eqb k) (keys o) = true); [|congruence].
  apply existsb_exists. exists k. split; [exact Ha|apply String.eqb_refl].
Qed.

Lemma obj_assign_wf (target source : obj) :
  wf_obj target -> wf_obj (obj_assign target source).
Proof.
  unfold obj_assign. revert target.
  induction source as [|[k v] source IH]; intros target H; [exact H|].
  simpl. apply IH. now apply obj_set_wf.
Qed.

(** No write creates an own property [__proto__]. *)
Lemma obj_set_no_proto (k : string) (v : value) (o : obj) :
  no_proto o -> no_proto (obj_set k v o).
Proof.
  unfold no_proto. rewrite keys_obj_set. intros H.
  destruct (existsb (String.eqb k) (keys o)); [exact H|]. cbn [orb].
  destruct (String.eqb_spec k proto) as [->|Hne]; [exact H|].
  intros Hin. apply in_app_or in Hin as [Hin|[E|[]]]; [now apply H|].
  now apply Hne.
Qed.

Lemma obj_assign_no_proto (target source : obj) :
  no_proto target -> no_proto (obj_assign target source).
Proof.
  unfold obj_assign. revert target.
  induction source as [|[k v] source IH]; intros target H; [exact H|].
  simpl. apply IH. now apply obj_set_no_proto.
Qed.


Lemma flatten_value_loop (es : list (string * value)) (prefix : string) :
  flatten_value (VObject es) prefix = flatten_loop prefix es [].
Proof.
  cbn [flatten_value]. generalize (@nil (string * value)).
  induction es as [|[k v] es IH]; intros result; [reflexivity|].
  cbn [flatten_loop]. now rewrite <- IH.
Qed.

Lemma flatten_loop_wf (prefix : string) (es : list (string * value)) :
  forall result, wf_obj result -> wf_obj (flatten_loop prefix es result).
Proof.
  induction es as [|[k v] es IH]; intros result H; [exact H|].
  simpl. apply IH. destruct (is_plain v).
  - now apply obj_assign_wf.
  - now apply obj_set_wf.
Qed.

Lemma flatten_value_wf (v : value) (prefix : string) :
  wf_obj (flatten_value v prefix).
Proof.
  destruct v; try (apply NoDup_nil).
  rewrite flatten_value_loop. apply flatten_loop_wf. apply NoDup_nil.
Qed.

Lemma flatten_loop_no_proto (prefix : string) (es : list (string * value)) :
  forall result, no_proto result -> no_proto (flatten_loop prefix es result).
Proof.
  induction es as [|[k v] es IH]; intros result H; [exact H|].
  simpl. apply IH. destruct (is_plain v).
  - now apply obj_assign_no_proto.
  - now apply obj_set_no_proto.
Qed.

(** A flattened record has no own property [__proto__]. *)
Lemma flatten_value_no_proto (v : value) (prefix : string) :
  no_proto (flatten_value v prefix).
Proof.
  destruct v; try (intros []).
  rewrite flatten_value_loop. apply flatten_loop_no_proto. intros [].
Qed.







(** ** Nesting a flat record *)

Lemma obj_get_in (k : string) (v : value) (o : obj) :
  obj_get k o = Some v -> In (k, v) o.
Proof.
  induction o as [|[k' v'] o IH]; [discriminate|]. simpl.
  destruct (String.eqb_spec k k') as [->|Hne].
  - intros H; injection H as ->. now left.
  - intros H. right. now apply IH.
Qed.


Lemma Forall_obj_set (P : string * value -> Prop) (k : string) (x : value)
  (o : obj) :
  Forall P o -> P (k, x) -> Forall P (obj_set k x o).
Proof.
  intros H Hkx. induction o as [|[k' v'] o IH]; simpl.
  - destruct (String.eqb k proto); now repeat constructor.
  - inversion H; subst.
    destruct (String.eqb_spec k k') as [->|Hne]; constructor; auto.
Qed.




Lemma is_prefix_refl (p : list string) : is_prefix p p = true.
Proof. induction p; simpl; [reflexivity|]. now rewrite String.eqb_refl. Qed.









Lemma obj_assign_flat (target source : obj) :
  flat target -> flat source -> flat (obj_assign target source).
Proof.
  unfold obj_assign, flat. revert target.
  induction source as [|[k v] source IH]; intros target Ht Hs; [exact Ht|].
  inversion Hs; subst. simpl. apply IH; [|assumption].
  now apply Forall_obj_set.
Qed.

Lemma flatten_loop_flat (prefix : string) (es : list (string * value)) :
  Forall (fun kv => forall pre, flat (flatten_value (snd kv) pre)) es ->
  forall result, flat result -> flat (flatten_loop prefix es result).
Proof.
  induction es as [|[k v] es IH]; intros Hes result Hr; [exact Hr|].
  inversion Hes as [|? ? Hv Hes']; subst. cbn [flatten_loop].
  apply (IH Hes'). destruct (is_plain v) eqn:E.
  - apply obj_assign_flat; [exact Hr|apply Hv].
  - now apply Forall_obj_set.
Qed.

(** A flattened record holds no plain mapping. *)
Lemma flatten_value_flat (v : value) :
  forall pre, flat (flatten_value v pre).
Proof.
  induction v as [o IH|v Hv] using value_obj_ind; intros pre.
  - rewrite flatten_value_loop. apply flatten_loop_flat; [exact IH|].
    constructor.
  - destruct v; try constructor. discriminate Hv.
Qed.


Lemma in_keys_get (k : string) (o : obj) :
  In k (keys o) -> exists v, obj_get k o = Some v.
Proof.
  induction o as [|[k' v'] o IH]; [intros []|]. simpl.
  destruct (String.eqb_spec k k') as [->|Hne].
  - intros _. now exists v'.
  - intros [E|Hin]; [now destruct Hne|now apply IH].
Qed.





Local Open Scope string_scope.



(** The same on a nested record: [{constructor: {x: 1}}] has no dot in its
    property names and no plain mapping at its leaves; its flattened form
    is the record above, and the round trip loses it. *)
Example round_trip_through_constructor :
  flattenData [("constructor", VObject [("x", VNumber 1)])] EmptyString
  = [("constructor.x", VNumber 1)]
  /\ nestData (VObject [("constructor.x", VNumber 1)]) = Ok []
  /\ flattenData [] EmptyString = [].
Proof. repeat split; reflexivity. Qed.

Local Close Scope string_scope.

(** ** Dot notation in the recursive calls *)

Lemma lift_obind {A B} (c : outcome A) (k : A -> outcome B) :
  lift (obind c k) = bind (lift c) (fun a => lift (k a)).
Proof. now destruct c. Qed.

(** With dot notation every invocation nests, strips, walks and
    flattens. *)
Lemma validate_dot (data : value) (schema : SchemaDefiniton)
  (options : option ValidationOptions) :
  flag allowDotNotation options = true ->
  validate data schema options
  = bind (lift (nestData data)) (fun n =>
    bind (lift (if negb (flag skipStrip options)
                then stripData (VObject n) schema
                else Ok (VObject n))) (fun s =>
    bind (walk (rules options) schema s) (fun w =>
    lift (flatten_top w)))).
Proof.
  intros Hdot. unfold validate, validate_with, enter, leave.
  rewrite Hdot, !lift_obind, !bind_assoc. apply bind_ext. intros n.
  now rewrite bind_lift_ok.
Qed.

Lemma flatten_top_flat (w r : value) :
  flatten_top w = Ok r -> exists o, r = VObject o /\ flat o.
Proof.
  unfold flatten_top. intros H.
  exists (flattenData (for_in w) EmptyString).
  split; [|apply flatten_value_flat].
  destruct w; try discriminate H; now injection H as <-.
Qed.

Lemma prop_write_read (d : value) (key : string) (r d' : value) :
  prop_write d key r = Ok d' -> prop_read d' key = Ok r.
Proof.
  intros H. apply prop_write_ok in H as (o & -> & Hset & ->).
  simpl. unfold obj_lookup. now rewrite (obj_get_set_same key r o Hset).
Qed.

(** C5, as the code has it.  With [allowDotNotation] the recursive call
    made for a field with a nested schema receives the same options and
    performs the whole of [validate] again: it nests the field's value,
    strips and walks it, and flattens its result; what it stores in the
    field is a flat record, without plain mappings among its values. *)
Theorem C5_recursive_calls_nest_and_flatten
  (options : option ValidationOptions) (key : string) (fd : FieldDefinition)
  (nested : SchemaDefiniton) (d : value) :
  flag allowDotNotation options = true ->
  nestedSchema fd = Some nested ->
  rules options key fd d
  = bind (field_rules options key fd d) (fun vd =>
    bind (lift (nestData (fst vd))) (fun n =>
    bind (lift (if negb (flag skipStrip options)
                then stripData (VObject n) nested
                else Ok (VObject n))) (fun s =>
    bind (walk (rules options) nested s) (fun w =>
    bind (lift (flatten_top w)) (fun r =>
    lift (prop_write (snd vd) key r))))))
  /\ (forall t d',
        rules options key fd d = (t, Ok d') ->
        exists r, prop_read d' key = Ok (VObject r) /\ flat r).
Proof.
  intros Hdot Hnested.
  assert (E : rules options key fd d
              = bind (field_rules options key fd d) (fun vd =>
                bind (lift (nestData (fst vd))) (fun n =>
                bind (lift (if negb (flag skipStrip options)
                            then stripData (VObject n) nested
                            else Ok (VObject n))) (fun s =>
                bind (walk (rules options) nested s) (fun w =>
                bind (lift (flatten_top w)) (fun r =>
                lift (prop_write (snd vd) key r))))))).
  { rewrite rules_unfold, Hnested. apply bind_ext. intros vd.
    rewrite (validate_dot _ _ _ Hdot), bind_assoc. apply bind_ext. intros n.
    rewrite bind_assoc. apply bind_ext. intros s.
    now rewrite bind_assoc. }
  split; [exact E|].
  intros t d' H. rewrite E in H.
  apply bind_inv_ok in H as (t1 & vd & t2 & _ & H & _).
  apply bind_inv_ok in H as (t3 & n & t4 & _ & H & _).
  apply bind_inv_ok in H as (t5 & s & t6 & _ & H & _).
  apply bind_inv_ok in H as (t7 & w & t8 & _ & H & _).
  apply bind_inv_ok in H as (t9 & r & t10 & Hflat & H & _).
  unfold lift in Hflat, H. injection Hflat as _ Hflat. injection H as _ H.
  destruct (flatten_top_flat w r Hflat) as (o & -> & Ho).
  exists o. split; [|exact Ho].
  exact (prop_write_read _ _ _ _ H).
Qed.

Local Open Scope string_scope.

Lemma C5_recursive_calls_nest_and_flatten_witness :
  rules dotted_keep_all "details" details_a nested_document
  = ([], Ok (VObject [("details", VObject [("a.b", VNumber 1)])]))
  /\ exists r, prop_read (VObject [("details", VObject [("a.b", VNumber 1)])])
                 "details" = Ok (VObject r) /\ flat r.
Proof.
  destruct (C5_recursive_calls_nest_and_flatten dotted_keep_all "details"
              details_a nested_a nested_document eq_refl eq_refl)
    as [Hcall Hstored].
  assert (E : rules dotted_keep_all "details" details_a nested_document
              = ([], Ok (VObject [("details", VObject [("a.b", VNumber 1)])])))
    by (rewrite Hcall; reflexivity).
  split; [exact E|].
  exact (Hstored _ _ E).
Defined.

(** C5 as stated fails: were the nest and flatten steps performed by the
    outermost invocation only, the recursive call on the absent field
    [details] would read a property of [undefined]; the code nests
    [undefined] into an empty record in the recursive call and returns
    the default below it. *)
Lemma C5_counterexample :
  ~ (forall (data : value) (schema : SchemaDefiniton)
       (options : option ValidationOptions),
        flag allowDotNotation options = true ->
        validate data schema options
        = validate_outermost data schema options).
Proof.
  intros H. specialize (H (VObject []) user_schema dotted eq_refl).
  vm_compute in H. discriminate H.
Qed.

Example C5_code_and_specification :
  validate (VObject []) user_schema dotted
  = ([CallDefault "isAdmin"], Ok (VObject [("details.isAdmin", VBool false)]))
  /\ validate_outermost (VObject []) user_schema dotted
     = ([], Throw reading_undefined).
Proof. split; reflexivity. Qed.

Local Close Scope string_scope.

(** * Further properties of the validator *)

(** ** Induction on a schema *)

Lemma field_nested_ind (P : FieldDefinition -> Prop) :
  (forall fd,
      (forall nested, nestedSchema fd = Some nested ->
                      Forall (fun kf => P (snd kf)) nested) ->
      P fd) ->
  forall fd, P fd.
Proof.
  intros H. fix IH 1. intros fd. apply H.
  destruct fd as [t r ma mi va tr de ar [nested0|]]; cbn [nestedSchema];
    intros nested E; [|discriminate E].
  assert (Hall : Forall (fun kf => P (snd kf)) nested0).
  { clear E. induction nested0 as [|[k f] l IHl]; constructor.
    - apply IH.
    - exact IHl. }
  now injection E as <-.
Qed.

Lemma walk_ext (step1 step2 : string -> FieldDefinition -> value -> M value)
  (f : FieldDefinition -> FieldDefinition) (schema : SchemaDefiniton) :
  Forall (fun kf => forall key d, step1 key (f (snd kf)) d
                                  = step2 key (snd kf) d) schema ->
  forall d,
    walk step1 (map (fun kf => (fst kf, f (snd kf))) schema) d
    = walk step2 schema d.
Proof.
  induction schema as [|[k fd] schema IH]; intros Hall d; [reflexivity|].
  inversion Hall as [|? ? Hfd Hrest]; subst. cbn [map walk fst snd] in *.
  rewrite (Hfd k d). apply bind_ext. intros d'. now apply IH.
Qed.

Lemma schema_has_map (f : FieldDefinition -> FieldDefinition)
  (schema : SchemaDefiniton) (key : string) :
  schema_has key (map (fun kf => (fst kf, f (snd kf))) schema)
  = schema_has key schema.
Proof.
  unfold schema_has. induction schema as [|[k fd] schema IH]; [reflexivity|].
  cbn [map schema_get fst snd]. now destruct (String.eqb key k).
Qed.

Lemma strip_keys_ext (s1 s2 : SchemaDefiniton) :
  (forall key, schema_has key s1 = schema_has key s2) ->
  forall ks o, strip_keys ks s1 o = strip_keys ks s2 o.
Proof.
  intros H ks. induction ks as [|k ks IH]; intros o; [reflexivity|].
  simpl. now rewrite H, IH.
Qed.

Lemma existsb_pointwise {A} (f g : A -> bool) (l : list A) :
  (forall a, f a = g a) -> existsb f l = existsb g l.
Proof. intros H. induction l as [|a l IH]; simpl; now rewrite ?H, ?IH. Qed.

Lemma stripData_ext (s1 s2 : SchemaDefiniton) (d : value) :
  (forall key, schema_has key s1 = schema_has key s2) ->
  stripData d s1 = stripData d s2.
Proof.
  intros H. destruct d; try reflexivity; simpl.
  - now rewrite (existsb_pointwise _ _ _ H).
  - now rewrite (existsb_pointwise _ _ _ H).
  - now rewrite (strip_keys_ext s1 s2 H).
Qed.

Lemma enter_map (f : FieldDefinition -> FieldDefinition) (data : value)
  (schema : SchemaDefiniton) (options : option ValidationOptions) :
  enter data (map (fun kf => (fst kf, f (snd kf))) schema) options
  = enter data schema options.
Proof.
  unfold enter.
  destruct (if flag allowDotNotation options
            then (n <- nestData data ;; Ok (VObject n))%outcome
            else Ok data); try reflexivity.
  cbn [obind]. destruct (negb (flag skipStrip options)); [|reflexivity].
  apply stripData_ext. intros key. apply schema_has_map.
Qed.

Lemma validate_map (options : option ValidationOptions)
  (f : FieldDefinition -> FieldDefinition) (schema : SchemaDefiniton) :
  Forall (fun kf => forall key d, rules options key (f (snd kf)) d
                                  = rules options key (snd kf) d) schema ->
  forall data,
    validate data (map (fun kf => (fst kf, f (snd kf))) schema) options
    = validate data schema options.
Proof.
  intros Hall data. unfold validate, validate_with.
  rewrite enter_map. apply bind_ext. intros d.
  now rewrite (walk_ext (rules options) (rules options) f schema Hall).
Qed.

(** ** Skipped rules *)

Lemma rules_without_required (options : option ValidationOptions) :
  flag skipRequired options = true ->
  forall fd key d,
    rules options key (without_required_field fd) d = rules options key fd d.
Proof.
  intros Hskip.
  induction fd as [fd IH] using field_nested_ind. intros key d.
  rewrite !rules_unfold.
  assert (Hfield : field_rules options key (without_required_field fd) d
                   = field_rules options key fd d).
  { unfold field_rules, checks, apply_default, apply_transform.
    rewrite Hskip. now destruct fd. }
  rewrite Hfield. apply bind_ext. intros vd.
  destruct fd as [t r ma mi va tr de ar [nested|]]; [|reflexivity].
  cbn [without_required_field nestedSchema] in *.
  now rewrite (validate_map options without_required_field nested
                 (IH nested eq_refl)).
Qed.

Lemma validate_map_without_required (options : option ValidationOptions)
  (data : value) (schema : SchemaDefiniton) :
  flag skipRequired options = true ->
  validate data (without_required schema) options
  = validate data schema options.
Proof.
  intros Hskip. apply validate_map.
  apply Forall_forall. intros kf _ key d0.
  now apply rules_without_required.
Qed.

(** With [skipRequired] the [required] attributes of a schema play no
    part: the call behaves as on the schema without them, at every depth,
    whatever they hold (malformed ones included). *)
Theorem skipRequired_ignores_required (options : option ValidationOptions)
  (data : value) (schema : SchemaDefiniton) :
  flag skipRequired options = true ->
  validate data (without_required schema) options
  = validate data schema options.
Proof. apply validate_map_without_required. Qed.

Local Open Scope string_scope.

Lemma skipRequired_ignores_required_witness :
  validate (VObject []) (without_required (profile_schema (Some (Plain true))))
    (Some (mkOptions true true false true))
  = validate (VObject []) (profile_schema (Some (Plain true)))
      (Some (mkOptions true true false true)).
Proof.
  apply (skipRequired_ignores_required (Some (mkOptions true true false true))).
  reflexivity.
Defined.

Local Close Scope string_scope.

Lemma validateCustom_events (v : value)
  (validate : option (rule (value -> bool))) (key : string) (e : event) :
  In e (trace (validateCustom v validate key)) -> e = CallValidate key v.
Proof.
  destruct validate as [[f|f msg|]|], v; simpl; try contradiction;
    destruct (f _); simpl; intros [<-|[]]; reflexivity.
Qed.

Lemma checks_events (options : option ValidationOptions) (key : string)
  (fd : FieldDefinition) (v : value) (e : event) :
  In e (trace (checks options key fd v)) -> e = CallValidate key v.
Proof.
  unfold checks. rewrite !bind_lift.
  destruct (if negb (flag skipRequired options)
            then validateRequired v (required fd) key else Ok tt);
    try contradiction.
  destruct (validateType v (type fd) key); try contradiction.
  destruct (validateMaxLength v (maxLength fd) key); try contradiction.
  destruct (validateMinLength v (minLength fd) key); try contradiction.
  rewrite trace_bind. intros H. apply in_app_or in H as [H|H].
  - now apply validateCustom_events in H.
  - destruct (result (validateCustom v (validateFn fd) key));
      destruct H.
Qed.

Lemma field_rules_no_default (options : option ValidationOptions)
  (key : string) (fd : FieldDefinition) (d : value) (e : event) :
  flag skipDefault options = true ->
  In e (trace (field_rules options key fd d)) -> is_default_call e = false.
Proof.
  intros Hskip. unfold field_rules. rewrite bind_lift.
  destruct (prop_read d key) as [v| |]; try contradiction.
  rewrite trace_bind, apply_default_trace, Hskip.
  replace (match v with
           | VUndefined => match defaultFn fd with
                           | Some (Fn _) => []
                           | _ => []
                           end
           | _ => []
           end) with (@nil event)
    by (destruct v; try reflexivity; now destruct (defaultFn fd) as [[]|]).
  cbn [app].
  destruct (result (apply_default options key fd v d)) as [[v1 d1]| |];
    try contradiction.
  rewrite trace_bind. intros H. apply in_app_or in H as [H|H].
  - apply checks_events in H. now subst e.
  - destruct (result (checks options key fd (fst (v1, d1)))); try destruct H.
    apply apply_transform_trace in H as [-> _]. reflexivity.
Qed.

Lemma walk_trace (P : event -> Prop)
  (step : string -> FieldDefinition -> value -> M value)
  (schema : SchemaDefiniton) :
  Forall (fun kf => forall key d e, In e (trace (step key (snd kf) d)) -> P e)
    schema ->
  forall d e, In e (trace (walk step schema d)) -> P e.
Proof.
  induction schema as [|[k fd] schema IH]; intros Hall d e;
    [intros []|].
  inversion Hall as [|? ? Hfd Hrest]; subst. cbn [walk].
  rewrite trace_bind. intros H. apply in_app_or in H as [H|H].
  - exact (Hfd k d e H).
  - destruct (result (step k fd d)); try destruct H.
    exact (IH Hrest _ e H).
Qed.

Lemma validate_with_trace (P : event -> Prop)
  (step : string -> FieldDefinition -> value -> M value)
  (schema : SchemaDefiniton) (options : option ValidationOptions) :
  (forall d e, In e (trace (walk step schema d)) -> P e) ->
  forall data e,
    In e (trace (validate_with step data schema options)) -> P e.
Proof.
  intros H data e. unfold validate_with. rewrite bind_lift.
  destruct (enter data schema options) as [d| |]; try contradiction.
  rewrite trace_bind. intros Hin. apply in_app_or in Hin as [Hin|Hin].
  - exact (H d e Hin).
  - destruct (result (walk step schema d)); destruct Hin.
Qed.

Lemma rules_no_default (options : option ValidationOptions) :
  flag skipDefault options = true ->
  forall fd key d e,
    In e (trace (rules options key fd d)) -> is_default_call e = false.
Proof.
  intros Hskip. induction fd as [fd IH] using field_nested_ind.
  intros key d e. rewrite rules_unfold, trace_bind. intros H.
  apply in_app_or in H as [H|H].
  - exact (field_rules_no_default options key fd d e Hskip H).
  - destruct (result (field_rules options key fd d)) as [vd| |];
      try destruct H.
    destruct (nestedSchema fd) as [nested|] eqn:E; [|destruct H].
    rewrite trace_bind in H. apply in_app_or in H as [H|H].
    + revert H. unfold validate.
      apply (validate_with_trace (fun e => is_default_call e = false)).
      apply (walk_trace (fun e => is_default_call e = false)).
      exact (IH nested eq_refl).
    + destruct (result (validate (fst vd) nested options)); destruct H.
Qed.

Lemma skipDefault_no_supplier_at (options : option ValidationOptions)
  (data : value) (schema : SchemaDefiniton) (e : event) :
  flag skipDefault options = true ->
  In e (trace (validate data schema options)) -> is_default_call e = false.
Proof.
  intros Hskip. unfold validate.
  apply (validate_with_trace (fun e => is_default_call e = false)).
  apply (walk_trace (fun e => is_default_call e = false)).
  apply Forall_forall. intros kf _ key d e'.
  now apply rules_no_default.
Qed.

(** With [skipDefault] no default supplier is invoked, at any depth of the
    schema and whatever the data: the trace of the call holds no call of
    a supplier. *)
Theorem skipDefault_calls_no_supplier (options : option ValidationOptions)
  (data : value) (schema : SchemaDefiniton) (e : event) :
  flag skipDefault options = true ->
  In e (trace (validate data schema options)) -> is_default_call e = false.
Proof. apply skipDefault_no_supplier_at. Qed.

Local Open Scope string_scope.

(** The schema [member_schema] has a supplier for [role], which the record
    lacks: without [skipDefault] the supplier is called and [role] is
    filled in; with it the only callback invoked is the transform of
    [name], and [role] stays absent. *)
Lemma skipDefault_calls_no_supplier_witness :
  validate (VObject [("name", VString "ann")]) member_schema keep_all
  = ([CallDefault "role"; CallTransform "name" (VString "ann")],
     Ok (VObject [("name", VNumber 7); ("role", VString "user")]))
  /\ validate (VObject [("name", VString "ann")]) member_schema skip_default
     = ([CallTransform "name" (VString "ann")],
        Ok (VObject [("name", VNumber 7)]))
  /\ In (CallTransform "name" (VString "ann"))
       (trace (validate (VObject [("name", VString "ann")]) member_schema
                 skip_default))
  /\ is_default_call (CallTransform "name" (VString "ann")) = false.
Proof.
  assert (H : In (CallTransform "name" (VString "ann"))
                (trace (validate (VObject [("name", VString "ann")])
                          member_schema skip_default)))
    by (left; reflexivity).
  split; [reflexivity|]. split; [reflexivity|]. split; [exact H|].
  exact (skipDefault_calls_no_supplier skip_default
           (VObject [("name", VString "ann")]) member_schema
           (CallTransform "name" (VString "ann")) eq_refl H).
Defined.

Local Close Scope string_scope.

(** ** What a call keeps of its input *)

Lemma same_but_object (key : string) (o : obj) (d' : value) :
  same_but key (VObject o) d' ->
  exists o', d' = VObject o'
             /\ forall k, k <> key -> obj_get k o' = obj_get k o.
Proof.
  destruct d'; simpl; intros H; try discriminate H. now eexists.
Qed.

Lemma walk_get_other (options : option ValidationOptions) (key : string)
  (schema : SchemaDefiniton) :
  ~ In key (map fst schema) ->
  forall o t d',
    walk (rules options) schema (VObject o) = (t, Ok d') ->
    exists o', d' = VObject o' /\ obj_get key o' = obj_get key o.
Proof.
  induction schema as [|[k fd] schema IH]; intros Hnot o t d' H.
  - injection H as _ <-. now exists o.
  - cbn [walk] in H. apply bind_inv_ok in H as (t1 & d1 & t2 & Hr & H & _).
    apply rules_same_but, same_but_object in Hr as (o1 & -> & Ho1).
    destruct (IH (fun Hin => Hnot (or_intror Hin)) o1 t2 d' H)
      as (o' & -> & Ho').
    exists o'. split; [reflexivity|]. rewrite Ho'. apply Ho1.
    intros <-. apply Hnot. now left.
Qed.

(** With stripping skipped and without dot notation, a call that returns
    hands back a record that holds every property name of its input, and
    in which every property the schema does not declare has the value it
    had. *)
Theorem validate_keeps_undeclared (options : option ValidationOptions)
  (schema : SchemaDefiniton) (o : obj) (t : list event) (d' : value) :
  flag skipStrip options = true ->
  flag allowDotNotation options = false ->
  validate (VObject o) schema options = (t, Ok d') ->
  exists o',
    d' = VObject o'
    /\ incl (keys o) (keys o')
    /\ forall k, ~ In k (map fst schema) -> obj_get k o' = obj_get k o.
Proof.
  intros Hstrip Hdot Hv.
  destruct (validate_skipStrip_keeps_keys options schema o t d' Hstrip Hdot Hv)
    as (o' & -> & Hkeys).
  exists o'. split; [reflexivity|]. split; [exact Hkeys|].
  intros k Hk. revert Hv. unfold validate, validate_with, enter, leave.
  rewrite Hstrip, Hdot. cbn [obind negb]. rewrite bind_lift_ok.
  intros H. apply bind_inv_ok in H as (t1 & d1 & t2 & Hw & H & _).
  unfold lift in H. injection H as _ ->.
  destruct (walk_get_other options k schema Hk o t1 _ Hw) as (o1 & E & Ho1).
  now injection E as <-.
Qed.

Local Open Scope string_scope.

Lemma validate_keeps_undeclared_witness :
  exists o',
    VObject [("name", VNumber 7); ("extra", VBool true)] = VObject o'
    /\ incl (keys [("name", VString "ann"); ("extra", VBool true)]) (keys o')
    /\ forall k, ~ In k (map fst [("name", shouting)]) ->
                 obj_get k o'
                 = obj_get k [("name", VString "ann"); ("extra", VBool true)].
Proof.
  apply (validate_keeps_undeclared (Some (mkOptions true false false false))
           [("name", shouting)]
           [("name", VString "ann"); ("extra", VBool true)]
           [CallTransform "name" (VString "ann")]);
    reflexivity.
Defined.

Local Close Scope string_scope.

Lemma validate_dot_flat_at (options : option ValidationOptions)
  (data : value) (schema : SchemaDefiniton) (t : list event) (r : value) :
  flag allowDotNotation options = true ->
  validate data schema options = (t, Ok r) ->
  exists o, r = VObject o /\ flat o /\ wf_obj o.
Proof.
  intros Hdot H. rewrite (validate_dot data schema options Hdot) in H.
  apply bind_inv_ok in H as (t1 & n & t2 & _ & H & _).
  apply bind_inv_ok in H as (t3 & s & t4 & _ & H & _).
  apply bind_inv_ok in H as (t5 & w & t6 & _ & H & _).
  unfold lift in H. injection H as _ H. unfold flatten_top in H.
  exists (flattenData (for_in w) EmptyString).
  split; [|split; [apply flatten_value_flat|apply flatten_value_wf]].
  destruct w; try discriminate H; now injection H as <-.
Qed.

(** With dot notation a call that returns hands back a flat record: its
    property names are unique and none of its values is a plain mapping,
    whatever the input and the callbacks. *)
Theorem validate_dot_returns_flat (options : option ValidationOptions)
  (data : value) (schema : SchemaDefiniton) (t : list event) (r : value) :
  flag allowDotNotation options = true ->
  validate data schema options = (t, Ok r) ->
  exists o, r = VObject o /\ flat o /\ wf_obj o.
Proof. apply validate_dot_flat_at. Qed.

Lemma validate_dot_returns_flat_witness :
  exists o, VObject [("details.isAdmin"%string, VBool false)] = VObject o
            /\ flat o /\ wf_obj o.
Proof.
  apply (validate_dot_returns_flat dotted (VObject []) user_schema
           [CallDefault "isAdmin"%string]);
    reflexivity.
Defined.

(** ** The path codec on records that need no conversion *)

Lemma obj_set_fresh (k : string) (v : value) (o : obj) :
  String.eqb k proto = false ->
  ~ In k (keys o) -> obj_set k v o = o ++ [(k, v)].
Proof.
  intros Hk. induction o as [|[k' v'] o IH]; intros H; simpl.
  - now rewrite Hk.
  - destruct (String.eqb_spec k k') as [->|Hne].
    + destruct H. now left.
    + rewrite IH; [reflexivity|]. intros Hin. apply H. now right.
Qed.

Lemma no_proto_cons (k : string) (v : value) (o : obj) :
  no_proto ((k, v) :: o) <-> String.eqb k proto = false /\ no_proto o.
Proof.
  unfold no_proto. cbn [keys map fst In]. split.
  - intros H. split.
    + destruct (String.eqb_spec k proto) as [->|]; [|reflexivity].
      destruct H. now left.
    + intros Hin. apply H. now right.
  - intros [Hk Ho] [E|Hin]; [|now apply Ho].
    subst k. now rewrite String.eqb_refl in Hk.
Qed.

Lemma keys_app (a b : obj) : keys (a ++ b) = keys a ++ keys b.
Proof. apply map_app. Qed.

Lemma NoDup_keys_head (acc : obj) (k : string) (v : value) (es : obj) :
  NoDup (keys (acc ++ (k, v) :: es)) ->
  ~ In k (keys acc) /\ NoDup (keys ((acc ++ [(k, v)]) ++ es)).
Proof.
  intros H. split.
  - rewrite keys_app in H. cbn [keys map fst] in H.
    apply NoDup_remove_2 in H. intros Hin. apply H.
    apply in_or_app. now left.
  - now rewrite <- app_assoc.
Qed.

Lemma nest_entries_dot_free (es : obj) :
  Forall (fun kv => dot_free (fst kv) = true) es ->
  no_proto es ->
  forall acc,
    NoDup (keys (acc ++ es)) -> nest_entries es acc = Ok (acc ++ es).
Proof.
  induction es as [|[k v] es IH]; intros Hfree Hproto acc Hdup.
  - now rewrite app_nil_r.
  - inversion Hfree as [|? ? Hk Hrest]; subst. cbn [fst] in Hk.
    apply no_proto_cons in Hproto as [Hkp Hproto'].
    destruct (NoDup_keys_head acc k v es Hdup) as [Hnot Hdup'].
    cbn [nest_entries]. rewrite (dot_free_split k Hk). cbn [nest_assign].
    rewrite (settable_ordinary k acc Hkp). cbn [obind].
    rewrite (obj_set_fresh k v acc Hkp Hnot), (IH Hrest Hproto' _ Hdup').
    now rewrite <- app_assoc.
Qed.

(** [nestData] copies a record none of whose keys holds a dot or is
    [__proto__]: the result is the record itself, in the same order.  (A
    key without a dot is assigned and never read, so the other inherited
    names are copied like any name; the assignment of [__proto__] goes to
    the inherited setter.) *)
Theorem nestData_without_dots (o : obj) :
  wf_obj o ->
  Forall (fun kv => dot_free (fst kv) = true) o ->
  no_proto o ->
  nestData (VObject o) = Ok o.
Proof.
  intros Hwf Hfree Hproto. unfold nestData. cbn [for_in].
  exact (nest_entries_dot_free o Hfree Hproto [] Hwf).
Qed.

Local Open Scope string_scope.

Lemma nestData_without_dots_witness :
  nestData (VObject [("toString", VNumber 1); ("a", VObject [])])
  = Ok [("toString", VNumber 1); ("a", VObject [])].
Proof.
  apply nestData_without_dots.
  - repeat constructor; simpl; intuition discriminate.
  - repeat constructor.
  - unfold no_proto, proto. simpl. intuition discriminate.
Defined.

Local Close Scope string_scope.

Lemma flatten_loop_flat_entries (es : obj) :
  flat es -> no_proto es ->
  forall acc,
    NoDup (keys (acc ++ es)) ->
    flatten_loop EmptyString es acc = acc ++ es.
Proof.
  induction es as [|[k v] es IH]; intros Hflat Hproto acc Hdup.
  - now rewrite app_nil_r.
  - inversion Hflat as [|? ? Hv Hrest]; subst. cbn [snd] in Hv.
    apply no_proto_cons in Hproto as [Hkp Hproto'].
    destruct (NoDup_keys_head acc k v es Hdup) as [Hnot Hdup'].
    cbn [flatten_loop]. rewrite Hv. cbn [append].
    rewrite (obj_set_fresh k v acc Hkp Hnot), (IH Hrest Hproto' _ Hdup').
    now rewrite <- app_assoc.
Qed.

Lemma flatten_flat_record (G : obj) :
  wf_obj G -> flat G -> no_proto G -> flattenData G EmptyString = G.
Proof.
  intros Hwf Hflat Hproto. unfold flattenData. rewrite flatten_value_loop.
  exact (flatten_loop_flat_entries G Hflat Hproto [] Hwf).
Qed.

(** [flattenData] returns unchanged a record with unique keys, none of
    them [__proto__], none of whose values is a plain mapping; so
    flattening twice is flattening once, whatever the record and the
    prefix of the first pass. *)
Theorem flattenData_idempotent (F N : obj) (prefix : string) :
  (wf_obj F -> flat F -> no_proto F -> flattenData F EmptyString = F)
  /\ flattenData (flattenData N prefix) EmptyString = flattenData N prefix.
Proof.
  split; [apply flatten_flat_record|].
  apply flatten_flat_record;
    [apply flatten_value_wf|apply flatten_value_flat
    |apply flatten_value_no_proto].
Qed.

Lemma flattenData_idempotent_witness :
  flattenData update EmptyString = update
  /\ flattenData (flattenData document EmptyString) EmptyString
     = flattenData document EmptyString.
Proof.
  destruct (flattenData_idempotent update document EmptyString) as [H1 H2].
  split; [|exact H2]. apply H1.
  - repeat constructor; simpl; intuition discriminate.
  - repeat constructor.
  - unfold no_proto, proto. simpl. intuition discriminate.
Defined.

(** An own property [__proto__] (a record read by [JSON.parse] can have
    one) is the exception: at the top level [result["__proto__"] = value]
    goes to the inherited setter and the flattened record has no such
    property. *)
Example flattenData_own_proto :
  flattenData [("__proto__"%string, VNumber 1); ("a"%string, VNumber 2)]
    EmptyString
  = [("a"%string, VNumber 2)].
Proof. reflexivity. Qed.

Lemma flatten_loop_app (prefix : string) (a b : obj) :
  forall result,
    flatten_loop prefix (a ++ b) result
    = flatten_loop prefix b (flatten_loop prefix a result).
Proof.
  induction a as [|[k v] a IH]; intros result; [reflexivity|].
  cbn [app flatten_loop]. apply IH.
Qed.

(** An empty plain mapping leaves no trace in the flattened record: the
    property that holds it is dropped. *)
Theorem flattenData_drops_empty_mapping (o1 o2 : obj) (k prefix : string) :
  flattenData (o1 ++ (k, VObject []) :: o2) prefix
  = flattenData (o1 ++ o2) prefix.
Proof.
  unfold flattenData. rewrite !flatten_value_loop, !flatten_loop_app.
  reflexivity.
Qed.

(** ** Ambiguous paths *)

Lemma strip_prefix_self (a b : string) :
  strip_prefix a (a ++ b) = Some b.
Proof.
  induction a as [|c a IH]; [reflexivity|]. cbn [append strip_prefix].
  now rewrite Ascii.eqb_refl.
Qed.

Lemma split_dotted (k s : string) :
  dot_free k = true -> split (k ++ String dot s) = k :: split s.
Proof.
  intros Hk. pose proof (split_strip_prefix k Hk (k ++ String dot s)) as H.
  rewrite strip_prefix_app, strip_prefix_self in H.
  cbn [strip_prefix] in H. rewrite Ascii.eqb_refl in H. exact H.
Qed.

Lemma nest_assign_fresh (k k2 : string) (rest : list string) (w : value)
  (T : obj) :
  obj_get k T = None -> inherited k = false ->
  nest_assign (k :: k2 :: rest) w T
  = (sub <- nest_assign (k2 :: rest) w [] ;;
     Ok (obj_set k (VObject sub) T))%outcome.
Proof.
  intros H Hi. cbn [nest_assign]. now rewrite H, Hi.
Qed.

Lemma nest_assign_empty (path : list string) (w : value) :
  path <> [] -> ordinary path -> exists T, nest_assign path w [] = Ok T.
Proof.
  induction path as [|k rest IH]; intros Hne Hord; [contradiction|].
  inversion Hord as [|? ? Hi Hord']; subst.
  destruct rest as [|k2 rest].
  - cbn [nest_assign].
    rewrite (settable_ordinary k [] (inherited_proto k Hi)). now eexists.
  - destruct IH as [T HT]; [discriminate|exact Hord'|].
    rewrite (nest_assign_fresh k k2 rest w [] eq_refl Hi), HT. now eexists.
Qed.

Lemma primitive_member_inherited (s : string) :
  primitive_member s = false -> inherited s = false.
Proof. unfold primitive_member. intros H. now apply orb_false_iff in H. Qed.

(** A flat record that holds [null], a boolean or a number at a path and
    a value at a longer path below it, where no segment of either path is
    a name that an object, a number or a boolean inherits: when the
    shorter key comes first, [nestData] raises a [TypeError]; when the
    longer key comes first its value is silently overwritten. *)
Theorem nestData_order_of_ambiguous_keys (k s : string) (v w : value) :
  dot_free k = true ->
  inherited k = false ->
  Forall (fun seg => primitive_member seg = false) (split s) ->
  is_primitive v = true ->
  (exists message,
      nestData (VObject [(k, v); ((k ++ String dot s)%string, w)])
      = Throw (TypeError message))
  /\ nestData (VObject [((k ++ String dot s)%string, w); (k, v)])
     = Ok [(k, v)].
Proof.
  intros Hk Hi Hs Hv. unfold nestData. cbn [for_in nest_entries].
  rewrite (split_dotted k s Hk), (dot_free_split k Hk).
  pose proof (inherited_proto k Hi) as Hkp.
  destruct (split s) as [|k2 rest] eqn:E; [now destruct (split_not_nil s)|].
  inversion Hs as [|? ? Hk2 Hrest]; subst.
  split.
  - cbn [nest_assign]. rewrite (settable_ordinary k [] Hkp).
    cbn [obind obj_set]. rewrite Hkp. cbn [nest_assign obj_get].
    rewrite String.eqb_refl, Hk2.
    destruct v; try discriminate Hv; cbn [obind]; now eexists.
  - destruct (nest_assign_empty (k2 :: rest) w) as [T HT]; [discriminate| |].
    { apply Forall_forall. intros x Hx. rewrite Forall_forall in Hs.
      now apply primitive_member_inherited, Hs. }
    rewrite (nest_assign_fresh k k2 rest w [] eq_refl Hi), HT.
    cbn [obind obj_set]. rewrite Hkp. cbn [nest_assign].
    unfold settable, own. cbn [obj_get]. rewrite String.eqb_refl.
    cbn [orb obind obj_set]. now rewrite String.eqb_refl.
Qed.

Local Open Scope string_scope.

Lemma nestData_order_of_ambiguous_keys_witness :
  (exists message,
      nestData (VObject [("a", VNumber 1); ("a.b.c", VNumber 2)])
      = Throw (TypeError message))
  /\ nestData (VObject [("a.b.c", VNumber 2); ("a", VNumber 1)])
     = Ok [("a", VNumber 1)].
Proof.
  apply (nestData_order_of_ambiguous_keys "a" "b.c" (VNumber 1) (VNumber 2));
    try reflexivity.
  repeat constructor.
Defined.

(** Through a name a number inherits the loop goes on with the built-in
    function, and through [constructor] it meets the read-only [name] of
    [Object]: both calls leave the model. *)
Example nestData_through_inherited_name :
  nestData (VObject [("a", VNumber 1); ("a.toString.x", VNumber 2)])
  = Unmodelled
  /\ nestData (VObject [("constructor.name", VNumber 2);
                        ("constructor", VNumber 1)])
     = Unmodelled.
Proof. split; reflexivity. Qed.

Local Close Scope string_scope.

(** ** The stripper, in general *)

Lemma schema_get_in (k : string) (schema : SchemaDefiniton) :
  In k (map fst schema) <-> schema_get k schema <> None.
Proof.
  induction schema as [|[k' fd] schema IH]; simpl.
  - split; [intros []|intros H; now apply H].
  - destruct (String.eqb_spec k k') as [->|Hne].
    + split; [discriminate|now left].
    + rewrite <- IH. split; [intros [E|H]; [now destruct Hne|exact H]|].
      intros H. now right.
Qed.

(** On a record [stripData] always succeeds; in the result a property is
    absent when [schema[key] !== undefined] holds of its name, and is as
    in the input otherwise; the test holds of the names the schema
    declares and of the names it inherits from [Object.prototype]; and
    stripping the result again changes nothing. *)
Theorem stripData_on_records (o : obj) (schema : SchemaDefiniton) :
  exists o',
    stripData (VObject o) schema = Ok (VObject o')
    /\ (forall k, obj_get k o'
                  = if schema_has k schema then None else obj_get k o)
    /\ (forall k, schema_has k schema = true
                  <-> In k (map fst schema) \/ inherited k = true)
    /\ stripData (VObject o') schema = Ok (VObject o').
Proof.
  exists (filter (fun kv => negb (schema_has (fst kv) schema)) o).
  split; [apply stripData_record|]. split; [|split].
  - intros k.
    rewrite (obj_get_filter (fun k => negb (schema_has k schema))).
    now destruct (schema_has k schema).
  - intros k. rewrite schema_get_in. unfold schema_has.
    destruct (schema_get k schema).
    + split; [intros _; now left|reflexivity].
    + split; [intros H; now right|]. intros [H|H]; [now destruct H|exact H].
  - rewrite stripData_record, filter_twice. do 2 f_equal.
    apply filter_ext. intros kv. apply andb_diag.
Qed.

(** A record with properties named like inherited members loses them,
    whatever the schema. *)
Example stripData_inherited_names :
  stripData (VObject [("constructor"%string, VNumber 1);
                      ("toString"%string, VNumber 2);
                      ("z"%string, VNumber 3)]) []
  = Ok (VObject [("z"%string, VNumber 3)]).
Proof. reflexivity. Qed.

(** ** Element and type checks *)

Lemma typeof_not_array (v : value) : String.eqb (typeof v) "array" = false.
Proof. now destruct v. Qed.

(** The element check accepts an array exactly when the [typeof] of every
    element is the given name; as no value has the [typeof] ["array"], an
    [arrayOf] of ["array"] accepts the empty array only. *)
Theorem validateArrayTypes_elements (items : list value) (t key : string) :
  (validateArrayTypes (VArray items) (Some t) key = Ok tt
   <-> Forall (fun i => typeof i = t) items)
  /\ (validateArrayTypes (VArray items) (Some "array"%string) key = Ok tt
      <-> items = []).
Proof.
  assert (H : forall t', validateArrayTypes (VArray items) (Some t') key = Ok tt
                         <-> Forall (fun i => typeof i = t') items).
  { intros t'. cbn [validateArrayTypes].
    destruct (forallb (fun i => String.eqb (typeof i) t') items) eqn:E.
    - split; [intros _|reflexivity]. rewrite forallb_forall in E.
      apply Forall_forall. intros i Hi. now apply String.eqb_eq, E.
    - split; [discriminate|]. intros Hall. rewrite Forall_forall in Hall.
      assert (forallb (fun i => String.eqb (typeof i) t') items = true);
        [|congruence].
      apply forallb_forall. intros i Hi. now apply String.eqb_eq, Hall. }
  split; [apply H|]. rewrite H. split.
  - intros Hall. destruct items as [|i items]; [reflexivity|].
    inversion Hall as [|? ? Hi _]; subst.
    apply String.eqb_eq in Hi. now rewrite typeof_not_array in Hi.
  - intros ->. constructor.
Qed.

(** For a recognised type the type check accepts [undefined] and [null],
    and any other value exactly when it is an array, for the type
    ["array"], or when its [typeof] is the type, for the other types (so
    an array, a date and a regular expression pass as ["object"]). *)
Theorem validateType_accepts (v : value) (t key : string) :
  includes SchemaTypes (Some t) = true ->
  (validateType v (Some t) key = Ok tt
   <-> is_nullish v = true
       \/ (if String.eqb t "array" then isArray v = true else typeof v = t)).
Proof.
  intros Ht. unfold validateType. rewrite Ht. cbn [negb].
  destruct (is_nullish v) eqn:Hn.
  - split; [now left|]. intros _. now destruct v.
  - assert (E : match v with
                | VUndefined | VNull => Ok tt
                | _ =>
                    if String.eqb t "array" then
                      if negb (isArray v) then
                        Throw (Error (key ++ " must be of type " ++ t
                                      ++ ", but got " ++ typeof v))
                      else Ok tt
                    else if negb (String.eqb (typeof v) t) then
                      Throw (Error (key ++ " must be of type " ++ t
                                    ++ ", but got " ++ typeof v))
                    else Ok tt
                end
                = if String.eqb t "array" then
                    if negb (isArray v) then
                      Throw (Error (key ++ " must be of type " ++ t
                                    ++ ", but got " ++ typeof v))
                    else Ok tt
                  else if negb (String.eqb (typeof v) t) then
                    Throw (Error (key ++ " must be of type " ++ t
                                  ++ ", but got " ++ typeof v))
                  else Ok tt)
      by (destruct v; try reflexivity; discriminate Hn).
    rewrite E. destruct (String.eqb t "array").
    + destruct (isArray v); cbn [negb]; split; try tauto;
        try discriminate; intros [H|H]; discriminate H.
    + destruct (String.eqb_spec (typeof v) t) as [Heq|Hne]; cbn [negb];
        split; try tauto; try discriminate.
      intros [H|H]; [discriminate H|contradiction].
Qed.

Lemma validateType_accepts_witness :
  validateType (VArray []) (Some "object"%string) "tags"%string = Ok tt.
Proof.
  apply (validateType_accepts (VArray []) "object" "tags" eq_refl).
  right. reflexivity.
Defined.

(** ** The formatter *)

Lemma obj_get_define (x k : string) (v : value) (o : obj) :
  obj_get x (obj_define k v o)
  = if String.eqb x k then Some v else obj_get x o.
Proof.
  induction o as [|[k' v'] o IH]; [reflexivity|]. simpl.
  destruct (String.eqb_spec k k') as [->|Hk]; simpl.
  - now destruct (String.eqb x k').
  - rewrite IH. destruct (String.eqb_spec x k) as [->|Hx]; [|reflexivity].
    destruct (String.eqb_spec k k'); [contradiction|reflexivity].
Qed.

Lemma obj_define_wf (k : string) (v : value) (o : obj) :
  wf_obj o -> wf_obj (obj_define k v o).
Proof.
  unfold wf_obj. induction o as [|[k' v'] o IH]; intros H; simpl.
  - repeat constructor. intros [].
  - inversion H as [|? ? Hnot Hdup]; subst.
    destruct (String.eqb_spec k k') as [->|Hne]; [exact H|].
    cbn [map fst]. constructor; [|now apply IH].
    intros Hin. apply in_keys_get in Hin as [x Hx]. cbn [fst] in *.
    rewrite obj_get_define in Hx.
    destruct (String.eqb_spec k' k) as [E|_]; [now destruct Hne|].
    apply obj_get_in in Hx. apply Hnot.
    apply in_map_iff. now exists (k', x).
Qed.

Lemma obj_spread_wf (target source : obj) :
  wf_obj target -> wf_obj (obj_spread target source).
Proof.
  unfold obj_spread. revert target.
  induction source as [|[k v] source IH]; intros target H; [exact H|].
  simpl. apply IH. now apply obj_define_wf.
Qed.

Lemma obj_get_spread (x : string) (target source : obj) :
  wf_obj source ->
  obj_get x (obj_spread target source)
  = match obj_get x source with
    | Some v => Some v
    | None => obj_get x target
    end.
Proof.
  unfold obj_spread. revert target.
  induction source as [|[k v] source IH]; intros target H; [reflexivity|].
  inversion H as [|? ? Hk Hs]; subst. simpl.
  rewrite (IH _ Hs), obj_get_define.
  destruct (String.eqb_spec x k) as [->|Hne]; [|reflexivity].
  now rewrite (obj_get_absent k source Hk).
Qed.

(** [format] gives [null] for a missing document; for an existing one it
    gives a record with unique keys that holds every field of the document
    with its value, and the document id under ["id"] unless the document
    has a field ["id"] of its own, which then takes its place. *)
Theorem format_fields (doc : DocumentSnapshot) :
  (doc_exists doc = false -> format doc = VNull)
  /\ (doc_exists doc = true -> wf_obj (doc_data doc) ->
      exists o,
        format doc = VObject o
        /\ wf_obj o
        /\ forall k,
             obj_get k o
             = match obj_get k (doc_data doc) with
               | Some v => Some v
               | None => if String.eqb k "id" then Some (VString (doc_id doc))
                         else None
               end).
Proof.
  unfold format. split; intros He; rewrite He; [reflexivity|].
  intros Hwf. cbn [negb]. eexists. split; [reflexivity|]. split.
  - apply obj_spread_wf. repeat constructor. intros [].
  - intros k. rewrite (obj_get_spread k _ _ Hwf). reflexivity.
Qed.

Local Open Scope string_scope.

Lemma format_fields_witness :
  exists o,
    format (mkSnapshot true "u1" [("name", VString "Ann"); ("id", VNumber 7)])
    = VObject o
    /\ wf_obj o
    /\ forall k,
         obj_get k o
         = match obj_get k [("name", VString "Ann"); ("id", VNumber 7)] with
           | Some v => Some v
           | None => if String.eqb k "id" then Some (VString "u1") else None
           end.
Proof.
  apply (proj2 (format_fields
                  (mkSnapshot true "u1"
                     [("name", VString "Ann"); ("id", VNumber 7)]))).
  - reflexivity.
  - repeat constructor; simpl; intuition discriminate.
Defined.

Local Close Scope string_scope.

(** ** The query builder *)

Lemma fold_where (cs : list Condition) :
  forall name l,
    fold_left (fun fq c => call (QWhere c) fq) cs (name, l)
    = (name, l ++ map QWhere cs).
Proof.
  induction cs as [|c cs IH]; intros name l; cbn [fold_left map].
  - now rewrite app_nil_r.
  - unfold call at 2. cbn [fst snd]. rewrite IH, <- app_assoc. reflexivity.
Qed.

Lemma call_if_calls {A} (x : option A) (m : A -> FirestoreCall)
  (name : string) (l : list FirestoreCall) :
  call_if x m (name, l) = (name, l ++ opt m x).
Proof. destruct x; cbn; [reflexivity|now rewrite app_nil_r]. Qed.

Lemma get_query_calls (q : Query) :
  get_query q
  = (collection q,
     map QWhere (conditions q) ++ opt QOrderBy (orderField q)
     ++ opt QLimit (limitTo q) ++ opt QLimitToLast (limitFrom q)
     ++ opt QStartAfter (startItem q) ++ opt QEndBefore (endItem q)
     ++ opt QOffset (offsetTo q)).
Proof.
  unfold get_query. rewrite fold_where. cbn [app].
  rewrite !call_if_calls, <- !app_assoc. reflexivity.
Qed.

Lemma count_query_calls (q : Query) :
  count_query q
  = (collection q,
     map QWhere (conditions q) ++ opt QOrderBy (orderField q)
     ++ opt QStartAfter (startItem q) ++ opt QEndBefore (endItem q)
     ++ opt QOffset (offsetTo q) ++ [QCount]).
Proof.
  unfold count_query. rewrite fold_where. cbn [app].
  rewrite !call_if_calls. unfold call. cbn [fst snd].
  rewrite <- !app_assoc. reflexivity.
Qed.

Lemma wheres_first (cs : list Condition) (tail : list FirestoreCall) :
  StronglySorted before tail ->
  StronglySorted before (map QWhere cs ++ tail).
Proof.
  intros Htail. induction cs as [|c cs IH]; [exact Htail|].
  cbn [map app]. constructor; [exact IH|].
  apply Forall_forall. intros b _. unfold before. cbn [rank].
  destruct (rank b); [right; now split|left; apply Nat.lt_0_succ].
Qed.

Lemma get_query_filters (q : Query) :
  filter (fun c => Nat.eqb (rank c) 0) (snd (get_query q))
  = map QWhere (conditions q).
Proof.
  rewrite get_query_calls. cbn [fst snd]. rewrite filter_app.
  assert (Hw : filter (fun c => Nat.eqb (rank c) 0)
                 (map QWhere (conditions q)) = map QWhere (conditions q)).
  { induction (conditions q) as [|c cs IH]; [reflexivity|].
    cbn [map filter rank Nat.eqb]. now rewrite IH. }
  rewrite Hw.
  destruct (orderField q), (limitTo q), (limitFrom q), (startItem q),
    (endItem q), (offsetTo q); cbn; now rewrite app_nil_r.
Qed.

(** Whatever the order in which the builder methods were called, [get]
    queries the collection of the builder and makes its calls in one
    order: the filters, in the order they were added, then at most one
    each of orderBy, limit, limitToLast, startAfter, endBefore and
    offset. *)
Theorem get_query_order (q : Query) :
  fst (get_query q) = collection q
  /\ StronglySorted before (snd (get_query q))
  /\ filter (fun c => Nat.eqb (rank c) 0) (snd (get_query q))
     = map QWhere (conditions q).
Proof.
  split; [now rewrite get_query_calls|]. split; [|apply get_query_filters].
  rewrite get_query_calls. cbn [fst snd].
  apply wheres_first.
  destruct (orderField q), (limitTo q), (limitFrom q), (startItem q),
    (endItem q), (offsetTo q); cbn [opt app];
    repeat (constructor; [|repeat (constructor;
                                    try (left; cbn [rank]; lia))]);
    constructor.
Qed.

(** [count] counts the query of [get] without its limits: it makes the
    calls of [get] other than limit and limitToLast, in the same order,
    and then [count()]. *)
Theorem count_query_drops_limits (q : Query) :
  count_query q
  = (fst (get_query q),
     filter (fun c => negb (is_limit c)) (snd (get_query q)) ++ [QCount]).
Proof.
  rewrite count_query_calls, get_query_calls. cbn [fst snd]. f_equal.
  rewrite filter_app.
  assert (Hw : filter (fun c => negb (is_limit c))
                 (map QWhere (conditions q)) = map QWhere (conditions q)).
  { induction (conditions q) as [|c cs IH]; [reflexivity|].
    cbn [map filter is_limit negb]. now rewrite IH. }
  rewrite Hw, <- app_assoc. f_equal.
  destruct (orderField q), (limitTo q), (limitFrom q), (startItem q),
    (endItem q), (offsetTo q); reflexivity.
Qed.

Lemma conditions_fold_where (cs : list Condition) :
  forall q,
    fold_left (fun q c => where_ (field c) (operator c) (cvalue c) q) cs q
    = mkQuery (collection q) (conditions q ++ cs) (orderField q) (limitTo q)
        (limitFrom q) (startItem q) (endItem q) (offsetTo q).
Proof.
  induction cs as [|c cs IH]; intros q; cbn [fold_left].
  - rewrite app_nil_r. now destruct q.
  - rewrite IH. unfold where_. cbn. rewrite <- app_assoc.
    now destruct c.
Qed.

(** Filters accumulate: a builder on which [where] is called for a list
    of conditions, whatever else is set on it, makes [get] query with the
    filters it already had followed by these, in the order of the
    calls. *)
Theorem where_accumulates (cs : list Condition) (q : Query) :
  filter (fun c => Nat.eqb (rank c) 0)
    (snd (get_query
            (fold_left (fun q c => where_ (field c) (operator c) (cvalue c) q)
               cs q)))
  = map QWhere (conditions q ++ cs).
Proof.
  rewrite conditions_fold_where. now rewrite get_query_filters.
Qed.

(** ** The callers in [Model] *)

(** The validation that [Model.updateById] runs before the hook and the
    store: it invokes no default supplier, it behaves as on the schema
    without its [required] attributes, and when it returns it hands back a
    flat record. *)
Theorem updateById_validation (schema : SchemaDefiniton) (data : value)
  (options : option ValidatingOptions) :
  validates options = true ->
  (forall e, In e (trace (updateById_data schema data options)) ->
             is_default_call e = false)
  /\ updateById_data (without_required schema) data options
     = updateById_data schema data options
  /\ (forall t r, updateById_data schema data options = (t, Ok r) ->
                  exists o, r = VObject o /\ flat o /\ wf_obj o).
Proof.
  unfold validates, updateById_data, Schema_validate. intros ->.
  split; [|split].
  - intros e. now apply skipDefault_no_supplier_at.
  - now apply validate_map_without_required.
  - intros t r. now apply validate_dot_flat_at.
Qed.

Local Open Scope string_scope.

Lemma updateById_validation_witness :
  updateById_data (without_required person_schema)
    (VObject [("age", VNumber 3)]) None
  = updateById_data person_schema (VObject [("age", VNumber 3)]) None.
Proof.
  exact (proj1 (proj2 (updateById_validation person_schema
                         (VObject [("age", VNumber 3)]) None eq_refl))).
Defined.

Local Close Scope string_scope.

(** [Model.validate] called without options: no default supplier is
    invoked, the [required] attributes play no part, and a call that
    returns hands back a flat record. *)
Theorem Model_validate_without_options (schema : SchemaDefiniton)
  (data : value) :
  (forall e, In e (trace (Model_validate schema data None)) ->
             is_default_call e = false)
  /\ Model_validate (without_required schema) data None
     = Model_validate schema data None
  /\ (forall t r, Model_validate schema data None = (t, Ok r) ->
                  exists o, r = VObject o /\ flat o /\ wf_obj o).
Proof.
  unfold Model_validate, Schema_validate, or_else. split; [|split].
  - intros e. now apply skipDefault_no_supplier_at.
  - now apply validate_map_without_required.
  - intros t r. now apply validate_dot_flat_at.
Qed.

(** ** Dot notation on a record that has no dotted key *)

Lemma keeps_wf_refl (key : string) (d : value) : keeps_wf key d d.
Proof. destruct d; simpl; auto. Qed.

Lemma keeps_wf_trans (key : string) (d1 d2 d3 : value) :
  keeps_wf key d1 d2 -> keeps_wf key d2 d3 -> keeps_wf key d1 d3.
Proof.
  destruct d1, d2; simpl; intros H1; try discriminate H1;
    try (injection H1 as <-); try (intros H2; exact H2).
  destruct d3; simpl; intros H2; try discriminate H2. auto.
Qed.

Lemma prop_write_keeps_wf (key : string) (d v d' : value) :
  prop_write d key v = Ok d' -> keeps_wf key d d'.
Proof.
  intros H. apply prop_write_ok in H as (o & -> & _ & ->).
  intros [Hwf Hp]. split; [now apply obj_set_wf|now apply obj_set_no_proto].
Qed.

Lemma walk_keeps_wf (options : option ValidationOptions)
  (schema : SchemaDefiniton) :
  forall d t d',
    walk (rules options) schema d = (t, Ok d') ->
    keeps_wf EmptyString d d'.
Proof.
  induction schema as [|[k fd] schema IH]; intros d t d' H.
  - injection H as _ <-. apply keeps_wf_refl.
  - simpl in H. apply bind_inv_ok in H as (t1 & d1 & t2 & Hr & H & _).
    apply (keeps_wf_trans _ d d1 d'); [|exact (IH d1 t2 d' H)].
    apply (rules_preserves (fun _ => keeps_wf EmptyString)
             (fun _ => keeps_wf_refl EmptyString)
             (fun _ => keeps_wf_trans EmptyString)
             (fun key d0 v d0' => prop_write_keeps_wf key d0 v d0')
             options k fd d t1 d1 Hr).
Qed.

Lemma filter_wf (f : string * value -> bool) (o : obj) :
  wf_obj o -> wf_obj (filter f o).
Proof.
  unfold wf_obj. induction o as [|[k v] o IH]; intros H; [exact H|].
  inversion H as [|? ? Hk Ho]; subst. simpl.
  destruct (f (k, v)); [|now apply IH].
  simpl. constructor; [|now apply IH].
  intros Hin. apply Hk. unfold keys in *.
  apply in_map_iff in Hin as ([k' v'] & <- & Hin).
  apply filter_In in Hin as [Hin _].
  apply in_map_iff. now exists (k', v').
Qed.

Lemma filter_no_proto (f : string * value -> bool) (o : obj) :
  no_proto o -> no_proto (filter f o).
Proof.
  unfold no_proto, keys. intros H Hin. apply H.
  apply in_map_iff in Hin as (kv & E & Hin).
  apply filter_In in Hin as [Hin _].
  apply in_map_iff. now exists kv.
Qed.

Lemma rules_same_flags (o1 o2 : option ValidationOptions) (key : string)
  (fd : FieldDefinition) (d : value) :
  flag skipDefault o1 = flag skipDefault o2 ->
  flag skipRequired o1 = flag skipRequired o2 ->
  nestedSchema fd = None ->
  rules o1 key fd d = rules o2 key fd d.
Proof.
  intros Hd Hr Hn. rewrite !rules_unfold, Hn.
  unfold field_rules, checks, apply_default. now rewrite Hd, Hr.
Qed.

Lemma walk_pointwise (step1 step2 : string -> FieldDefinition -> value -> M value)
  (schema : SchemaDefiniton) :
  Forall (fun kf => forall key d, step1 key (snd kf) d = step2 key (snd kf) d)
    schema ->
  forall d, walk step1 schema d = walk step2 schema d.
Proof.
  induction schema as [|[k fd] schema IH]; intros Hall d; [reflexivity|].
  inversion Hall as [|? ? Hfd Hrest]; subst. cbn [walk snd] in *.
  rewrite (Hfd k d). apply bind_ext. intros d'. now apply IH.
Qed.

(** Dot notation changes nothing for a record without dotted keys and
    without a property [__proto__], and a schema without nested schemas:
    when the call without dot notation returns a record that holds no plain
    mapping, the call with dot notation returns the same record after the
    same callbacks. *)
Theorem dot_notation_neutral (options : option ValidationOptions)
  (schema : SchemaDefiniton) (o : obj) (t : list event) (r : obj) :
  wf_obj o ->
  Forall (fun kv => dot_free (fst kv) = true) o ->
  no_proto o ->
  Forall (fun kf => nestedSchema (snd kf) = None) schema ->
  flag allowDotNotation options = false ->
  validate (VObject o) schema options = (t, Ok (VObject r)) ->
  flat r ->
  validate (VObject o) schema (with_dot options) = (t, Ok (VObject r)).
Proof.
  intros Hwf Hfree Hproto Hnone Hdot Hv Hflat.
  rewrite (validate_dot _ _ (with_dot options) eq_refl).
  unfold nestData. cbn [for_in].
  rewrite (nest_entries_dot_free o Hfree Hproto [] Hwf), bind_lift_ok.
  cbn [app].
  change (flag skipStrip (with_dot options)) with (flag skipStrip options).
  revert Hv. unfold validate, validate_with, enter, leave.
  rewrite Hdot. cbn [obind].
  assert (Hwalk : forall d,
             walk (rules (with_dot options)) schema d
             = walk (rules options) schema d).
  { apply walk_pointwise. rewrite Forall_forall in *.
    intros kf Hin key d. now apply rules_same_flags; [| |apply Hnone]. }
  assert (Hstrip : exists o0,
             (if negb (flag skipStrip options)
              then stripData (VObject o) schema else Ok (VObject o))
             = Ok (VObject o0) /\ wf_obj o0 /\ no_proto o0).
  { destruct (negb (flag skipStrip options)).
    - rewrite stripData_record. eexists. split; [reflexivity|].
      split; [now apply filter_wf|now apply filter_no_proto].
    - now exists o. }
  destruct Hstrip as (o0 & -> & Hwf0). rewrite !bind_lift_ok.
  intros H. apply bind_inv_ok in H as (t1 & d1 & t2 & Hw & H & Ht).
  unfold lift in H. injection H as <- ->. rewrite app_nil_r in Ht. subst t1.
  assert (Hr : flattenData r EmptyString = r).
  { destruct (walk_keeps_wf options schema _ _ _ Hw Hwf0) as [Hwfr Hpr].
    now apply flatten_flat_record. }
  rewrite Hwalk, Hw, bind_ok. unfold flatten_top, lift, trace, result.
  cbn [for_in fst snd]. now rewrite Hr, app_nil_r.
Qed.

Local Open Scope string_scope.

Lemma dot_notation_neutral_witness :
  validate (VObject [("name", VString "ann")]) [("name", shouting)]
    (with_dot keep_all)
  = ([CallTransform "name" (VString "ann")],
     Ok (VObject [("name", VNumber 7)])).
Proof.
  apply (dot_notation_neutral keep_all [("name", shouting)]
           [("name", VString "ann")]);
    try reflexivity; try (repeat constructor; fail).
  - repeat constructor. intros [].
  - unfold no_proto, proto. simpl. intuition discriminate.
Defined.

Lemma Model_validate_without_options_witness :
  Model_validate (without_required person_schema)
    (VObject [("age", VNumber 3)]) None
  = Model_validate person_schema (VObject [("age", VNumber 3)]) None.
Proof.
  exact (proj1 (proj2 (Model_validate_without_options person_schema
                         (VObject [("age", VNumber 3)])))).
Defined.

Local Close Scope string_scope.

(** ** A null field with a default and a required flag *)

(** The default rule fills [undefined] only, and the required rule
    rejects [null] too: for a field that is [null] in the record, required
    and given a default supplier, the supplier is not invoked and the call
    of the loop body raises the required error. *)
Theorem null_is_not_defaulted (options : option ValidationOptions)
  (key : string) (fd : FieldDefinition) (o : obj) (r : rule bool) :
  flag skipRequired options = false ->
  obj_get key o = Some VNull ->
  required fd = Some r ->
  scalar r = Some true ->
  field_rules options key fd (VObject o)
  = ([], Throw (Error (or_default (rule_message r)
                         (key ++ " is required")%string))).
Proof.
  intros Hskip Hget Hreq Hr. unfold field_rules.
  cbn [prop_read]. unfold obj_lookup. rewrite Hget, bind_lift_ok.
  assert (Hd : apply_default options key fd VNull (VObject o)
               = ([], Ok (VNull, VObject o))).
  { unfold apply_default. destruct (negb (flag skipDefault options));
      [|reflexivity]. now destruct (defaultFn fd). }
  rewrite Hd, bind_ok. cbn [fst snd trace result app].
  unfold checks. rewrite Hskip, Hreq. cbn [negb].
  destruct r as [b|b msg|]; cbn [scalar] in Hr; try discriminate Hr;
    injection Hr as ->; reflexivity.
Qed.

Local Open Scope string_scope.

Lemma null_is_not_defaulted_witness :
  field_rules None "role"
    (mkField (Some "string") (Some (Plain true)) None None None None
       (Some (Fn (fun _ => VString "user"))) None None)
    (VObject [("role", VNull)])
  = ([], Throw (Error "role is required")).
Proof.
  exact (null_is_not_defaulted None "role"
           (mkField (Some "string") (Some (Plain true)) None None None None
              (Some (Fn (fun _ => VString "user"))) None None)
           [("role", VNull)] (Plain true) eq_refl eq_refl eq_refl eq_refl).
Defined.

Local Close Scope string_scope.
